(** * The search orchestrator, the document store and the user cache

    A shallow embedding of
    - [src/memex/search/core.py]   (class [Search], [default_querybuilder]),
    - [h/accounts/services.py]     (class [UserService]),
    - [h/auth/__init__.py]         ([includeme]),
    - the document store exercised by [tests/memex/models/document_test.py].

    Python objects that are mutated in place are modelled by explicit state
    passing: a method takes the object and the world, and returns the new
    object and the new world next to its Python return value. *)

From stdpp Require Import gmap strings list fin_maps pretty.

Open Scope string_scope.
Open Scope list_scope.
Open Scope Z_scope.

(** ** Part I: [memex/search/core.py] *)

Module SearchCore.

(** A reference to a Python dict object holding relevance scores.  The only
    dict object the module ever stores scores in is the one bound to the
    module-level name [annotation_ids_map] (core.py, line 13); a value that
    holds that dict holds this reference, not a copy of its contents. *)
Inductive dict_ref :=
  | global_annotation_ids_map.

(** [SearchResult = namedtuple('SearchResult', [...])], core.py lines 15-20. *)
Record SearchResult {Parsed : Type} := mkSearchResult {
  total : Z;
  annotation_ids : list string;
  annotation_ids_map : dict_ref;
  reply_ids : list string;
  aggregations : gmap string Parsed;
}.
Arguments SearchResult : clear implicits.
Arguments mkSearchResult {Parsed} _ _ _ _ _.

(** Values of a search parameter dict, such as [{'limit': 200}]. *)
Inductive param :=
  | PInt (n : Z)
  | PStr (s : string).

(** The types the orchestrator handles without looking inside them. *)
Class Domain := {
  (** [pyramid.request.Request] *)
  Request : Type;
  (** relevance scores, [hit['_score']] *)
  Score : Type;
  (** the backend's raw aggregation payload, and what [parse_result] makes
      of it *)
  Raw : Type;
  Parsed : Type;
  (** the request body produced by [Builder.build] *)
  Body : Type;
  (** the state of the Elasticsearch client [request.es.conn] *)
  Conn : Type;
}.

Section Orchestrator.

Context `{D : Domain}.

(** Components of [memex.search.query]; what each one contributes to the
    request body is decided by [build] below. *)
Inductive Filter :=
  | AuthFilter (request : Request)
  | UriFilter (request : Request)
  | GroupFilter
  | UserFilter
  | TopLevelAnnotationsFilter
  | RegisteredFilter (name : string).

Inductive Matcher :=
  | AnyMatcher
  | TagsMatcher
  | RepliesMatcher (ids : list string)
  | RegisteredMatcher (name : string).

(** An aggregation component: anything with a [key] and a [parse_result]. *)
Record Aggregation := mkAggregation {
  key : string;
  parse_result : Raw -> Parsed;
}.

(** [query.Builder]: three lists, appended to in place. *)
Record Builder := mkBuilder {
  filters : list Filter;
  matchers : list Matcher;
  builder_aggregations : list Aggregation;
}.

Definition Builder_new : Builder := mkBuilder [] [] [].

Definition Builder_append_filter (b : Builder) (f : Filter) : Builder :=
  mkBuilder (filters b ++ [f]) (matchers b) (builder_aggregations b).

Definition Builder_append_matcher (b : Builder) (m : Matcher) : Builder :=
  mkBuilder (filters b) (matchers b ++ [m]) (builder_aggregations b).

Definition Builder_append_aggregation (b : Builder) (a : Aggregation) : Builder :=
  mkBuilder (filters b) (matchers b) (builder_aggregations b ++ [a]).

(** One element of [response['hits']['hits']]. *)
Record Hit := mkHit {
  _id : string;
  _score : Score;
}.

(** The backend's response: [hits.total], [hits.hits] and the optional
    [aggregations] entry. *)
Record Response := mkResponse {
  hits_total : Z;
  hits_hits : list Hit;
  response_aggregations : option (gmap string Raw);
}.

(** The keyword arguments of [es.conn.search]. *)
Record SearchCall := mkSearchCall {
  call_index : string;
  call_doc_type : string;
  call_source : bool;
  call_body : Body;
}.

(** The code the orchestrator calls but does not define. *)
Class Collaborators := {
  (** [request.es.index] and [request.es.t.annotation] *)
  es_index : Request -> string;
  es_t_annotation : Request -> string;
  (** [request.registry.get(FILTERS_KEY, [])] and the same for matchers *)
  registry_filters : Request -> list (Request -> Filter);
  registry_matchers : Request -> list (Request -> Matcher);
  (** [Builder.build(params)], defined in [memex.search.query] *)
  build : Builder -> gmap string param -> Body;
  (** [es.conn.search(...)]: answers a call and moves to its next state *)
  conn_search : Conn -> SearchCall -> Response * Conn;
}.
Context `{C : !Collaborators}.

(** What [print] writes to standard output (core.py lines 77 and 82). *)
Inductive printed :=
  | PrintParams (params : gmap string param)
  | PrintResponse (response : Response).

(** Messages passed to [log.warn]. *)
Definition reply_page_warning : string :=
  "The number of reply annotations exceeded the page size of the Elasticsearch query. We currently don't handle this, our search API doesn't support pagination of the reply set.".

(** Everything outside the [Search] object that its methods read or
    write: the module-level dict, the log, standard output and the
    backend, together with the list of calls the backend has received. *)
Record World := mkWorld {
  module_annotation_ids_map : gmap string Score;
  log : list string;
  stdout : list printed;
  es_conn : Conn;
  es_calls : list SearchCall;
}.

(** Reading a dict through a reference, in a given world. *)
Definition deref (w : World) (r : dict_ref) : gmap string Score :=
  match r with
  | global_annotation_ids_map => module_annotation_ids_map w
  end.

Definition log_warn (msg : string) (w : World) : World :=
  mkWorld (module_annotation_ids_map w) (log w ++ [msg]) (stdout w)
          (es_conn w) (es_calls w).

Definition print (p : printed) (w : World) : World :=
  mkWorld (module_annotation_ids_map w) (log w) (stdout w ++ [p])
          (es_conn w) (es_calls w).

Definition es_search (c : SearchCall) (w : World) : Response * World :=
  let '(response, conn') := conn_search (es_conn w) c in
  (response,
   mkWorld (module_annotation_ids_map w) (log w) (stdout w)
           conn' (es_calls w ++ [c])).

(** [annotation_ids_map[itemvar['_id']] = itemvar['_score']] *)
Definition set_score (h : Hit) (w : World) : World :=
  mkWorld (<[_id h := _score h]> (module_annotation_ids_map w)) (log w)
          (stdout w) (es_conn w) (es_calls w).

(** [class Search], core.py lines 25-121. *)
Record Search := mkSearch {
  request : Request;
  separate_replies : bool;
  builder : Builder;
  reply_builder : Builder;
}.

(** [default_querybuilder], core.py lines 124-136. *)
Definition default_querybuilder (request : Request) : Builder :=
  let builder := Builder_new in
  let builder := Builder_append_filter builder (AuthFilter request) in
  let builder := Builder_append_filter builder (UriFilter request) in
  let builder := Builder_append_filter builder GroupFilter in
  let builder := Builder_append_filter builder UserFilter in
  let builder := Builder_append_matcher builder AnyMatcher in
  let builder := Builder_append_matcher builder TagsMatcher in
  let builder :=
    foldl (fun b factory => Builder_append_filter b (factory request))
          builder (registry_filters request) in
  let builder :=
    foldl (fun b factory => Builder_append_matcher b (factory request))
          builder (registry_matchers request) in
  builder.

(** [Search.__init__] *)
Definition Search_init (request : Request) (separate_replies : bool) : Search :=
  mkSearch request separate_replies
           (default_querybuilder request) (default_querybuilder request).

Definition set_builder (self : Search) (b : Builder) : Search :=
  mkSearch (request self) (separate_replies self) b (reply_builder self).

Definition set_reply_builder (self : Search) (b : Builder) : Search :=
  mkSearch (request self) (separate_replies self) (builder self) b.

(** [Search.append_filter] *)
Definition append_filter (self : Search) (filter_ : Filter) : Search :=
  let self := set_builder self (Builder_append_filter (builder self) filter_) in
  set_reply_builder self (Builder_append_filter (reply_builder self) filter_).

(** [Search.append_matcher] *)
Definition append_matcher (self : Search) (matcher : Matcher) : Search :=
  let self := set_builder self (Builder_append_matcher (builder self) matcher) in
  set_reply_builder self (Builder_append_matcher (reply_builder self) matcher).

(** [Search.append_aggregation] *)
Definition append_aggregation (self : Search) (aggregation : Aggregation) : Search :=
  set_builder self (Builder_append_aggregation (builder self) aggregation).

(** The inner loop of [_parse_aggregation_results]: the first component
    of [self.builder.aggregations] whose key is [k]. *)
Fixpoint first_agg (k : string) (aggs : list Aggregation) : option Aggregation :=
  match aggs with
  | [] => None
  | agg :: rest =>
      if bool_decide (k ≠ key agg) then first_agg k rest else Some agg
  end.

(** [Search._parse_aggregation_results], core.py lines 108-121. *)
Definition _parse_aggregation_results (self : Search)
    (aggregations : option (gmap string Raw)) : gmap string Parsed :=
  match aggregations with
  | None => ∅
  | Some aggregations =>
      if bool_decide (aggregations = ∅) then ∅
      else
        map_fold
          (fun k result results =>
             match first_agg k (builder_aggregations (builder self)) with
             | Some agg => <[k := parse_result agg result]> results
             | None => results
             end)
          ∅ aggregations
  end.

(** Lines 74-75: [self.builder.append_filter(query.TopLevelAnnotationsFilter())]
    when [self.separate_replies]. *)
Definition append_top_level_filter (self : Search) : Search :=
  if separate_replies self
  then set_builder self
         (Builder_append_filter (builder self) TopLevelAnnotationsFilter)
  else self.

(** Line 94: [self.reply_builder.append_matcher(query.RepliesMatcher(annotation_ids))]. *)
Definition append_replies_matcher (self : Search) (annotation_ids : list string) : Search :=
  set_reply_builder self
    (Builder_append_matcher (reply_builder self) (RepliesMatcher annotation_ids)).

Definition annotation_call (self : Search) (params : gmap string param) : SearchCall :=
  mkSearchCall (es_index (request self)) (es_t_annotation (request self))
               false (build (builder self) params).

(** [Search.search_annotations], core.py lines 73-88. *)
Definition search_annotations (self : Search) (params : gmap string param)
    (w : World)
  : (Z * list string * dict_ref * gmap string Parsed) * Search * World :=
  let self := append_top_level_filter self in
  let w := print (PrintParams params) w in
  let '(response, w) := es_search (annotation_call self params) w in
  let w := print (PrintResponse response) w in
  let total := hits_total response in
  let annotation_ids := map _id (hits_hits response) in
  let w := foldl (fun w itemvar => set_score itemvar w) w (hits_hits response) in
  let aggregations :=
    _parse_aggregation_results self (response_aggregations response) in
  ((total, annotation_ids, global_annotation_ids_map, aggregations), self, w).

Definition reply_params : gmap string param := {[ "limit" := PInt 200 ]}.

Definition reply_call (self : Search) : SearchCall :=
  mkSearchCall (es_index (request self)) (es_t_annotation (request self))
               false (build (reply_builder self) reply_params).

(** [Search.search_replies], core.py lines 90-106. *)
Definition search_replies (self : Search) (annotation_ids : list string)
    (w : World) : list string * Search * World :=
  if negb (separate_replies self) then ([], self, w)
  else
    let self := append_replies_matcher self annotation_ids in
    let '(response, w) := es_search (reply_call self) w in
    let w :=
      if bool_decide (Z.of_nat (length (hits_hits response)) < hits_total response)
      then log_warn reply_page_warning w
      else w in
    (map _id (hits_hits response), self, w).

(** [Search.run], core.py lines 45-58. *)
Definition run (self : Search) (params : gmap string param) (w : World)
  : SearchResult Parsed * Search * World :=
  let '((total, annotation_ids, annotation_ids_map, aggregations), self, w) :=
    search_annotations self params w in
  let '(reply_ids, self, w) := search_replies self annotation_ids w in
  (mkSearchResult total annotation_ids annotation_ids_map reply_ids aggregations,
   self, w).

(** Successive calls of [run] on one [Search] object, one per element of
    [paramss], each starting in the world the previous one left. *)
Definition run_all (self : Search) (paramss : list (gmap string param))
    (w : World) : Search * World :=
  foldl (fun '(self, w) params => let '(_, self, w) := run self params w in (self, w))
        (self, w) paramss.

(** The contents of a dict [m] after the loop of lines 85-86 over [hits]. *)
Definition record_scores (hits : list Hit) (m : gmap string Score) : gmap string Score :=
  foldl (fun m itemvar => <[_id itemvar := _score itemvar]> m) m hits.

(** The response of the backend in state [conn] to the annotation search
    of [self] with [params], and the state it moves to. *)
Definition annotation_response (self : Search) (params : gmap string param)
    (conn : Conn) : Response * Conn :=
  conn_search conn (annotation_call (append_top_level_filter self) params).

(** The same for the reply search that follows an annotation search that
    returned [annotation_ids]. *)
Definition reply_response (self : Search) (annotation_ids : list string)
    (conn : Conn) : Response * Conn :=
  conn_search conn
    (reply_call (append_replies_matcher (append_top_level_filter self) annotation_ids)).

End Orchestrator.

End SearchCore.

(** ** Part II: the document store

    [memex/models/document.py] itself is not among the sources; its tests
    are.  The store is modelled the way the specification describes it:
    an arena in which a Document is an index, and DocumentURI and
    DocumentMeta rows hold the index of the Document that owns them. *)

Module DocumentStore.

Definition datetime := Z.

(** Modelled from the spec: the [Document] entity of the missing
    [memex/models/document.py], with its denormalized [web_uri] and
    [title] and its timestamps. *)
Record Document := mkDocument {
  web_uri : option string;
  title : option string;
  document_created : option datetime;
  document_updated : option datetime;
}.

(** Modelled from the spec: a [DocumentURI] row.  [type] and
    [content_type] are never null, so they are plain strings. *)
Record DocumentURI := mkDocumentURI {
  claimant : string;
  uri : string;
  type : string;
  content_type : string;
  document : nat;
  created : option datetime;
  updated : option datetime;
}.

(** Modelled from the spec: a [DocumentMeta] row.  [value] is a non-empty
    ordered sequence of strings, kept as its first element and the rest. *)
Record DocumentMeta := mkDocumentMeta {
  meta_claimant : string;
  meta_type : string;
  value : string * list string;
  meta_document : nat;
  meta_created : option datetime;
  meta_updated : option datetime;
}.

(** The errors a store operation can raise: the retryable kind
    ([transaction.interfaces.TransientError] in the tests), the storage
    layer's own [sa.exc.IntegrityError], and Python's [IndexError]. *)
Inductive error :=
  | ConcurrentUpdateError
  | IntegrityError
  | IndexError.

(** What the store logs: an existing claim found under a Document other
    than the given one. *)
Inductive warning :=
  | DocumentMismatch (existing given : nat).

Inductive result (A : Type) :=
  | Ok (a : A)
  | Raise (e : error).
Arguments Ok {A} a.
Arguments Raise {A} e.

(** Modelled from the spec: the transactional unit of work the missing
    [memex/models/document.py] runs in: the three tables as the session sees them, the
    warnings logged so far, and the flush of the storage layer.
    [flush_raises n] tells whether the n-th flush of this session raises
    [IntegrityError] (the tests replace [db_session.flush] by a function
    that always does); [flushes] counts the flushes made. *)
Record Session := mkSession {
  documents : gmap nat Document;
  document_uris : list DocumentURI;
  document_meta : list DocumentMeta;
  next_document : nat;
  warnings : list warning;
  flushes : nat;
  flush_raises : nat -> bool;
}.

Definition set_documents (s : Session) (d : gmap nat Document) : Session :=
  mkSession d (document_uris s) (document_meta s) (next_document s)
            (warnings s) (flushes s) (flush_raises s).

Definition set_document_uris (s : Session) (rows : list DocumentURI) : Session :=
  mkSession (documents s) rows (document_meta s) (next_document s)
            (warnings s) (flushes s) (flush_raises s).

Definition set_document_meta (s : Session) (rows : list DocumentMeta) : Session :=
  mkSession (documents s) (document_uris s) rows (next_document s)
            (warnings s) (flushes s) (flush_raises s).

Definition warn (msg : warning) (s : Session) : Session :=
  mkSession (documents s) (document_uris s) (document_meta s) (next_document s)
            (warnings s ++ [msg]) (flushes s) (flush_raises s).

(** Modelled from the spec: [session.flush()] of the storage layer, which
    signals a conflict by raising [IntegrityError]. *)
Definition flush (s : Session) : result unit * Session :=
  let s' := mkSession (documents s) (document_uris s) (document_meta s)
                      (next_document s) (warnings s) (S (flushes s))
                      (flush_raises s) in
  if flush_raises s (flushes s) then (Raise IntegrityError, s') else (Ok (), s').

(** Modelled from the spec: the end of every write path of the missing
    [memex/models/document.py]: flush once; a uniqueness or integrity
    violation is raised again as the retryable error; [a] is returned
    otherwise. *)
Definition flush_or_retryable {A} (a : A) (s : Session) : result A * Session :=
  match flush s with
  | (Ok _, s) => (Ok a, s)
  | (Raise IntegrityError, s) => (Raise ConcurrentUpdateError, s)
  | (Raise e, s) => (Raise e, s)
  end.

(** Modelled from the spec: [Document.find_by_uris] of the missing
    [memex/models/document.py]: the documents joined to a DocumentURI
    whose [uri] is, as a string, among the candidates. *)
Definition find_by_uris (s : Session) (uris : list string) : list nat :=
  filter (fun d => Exists (fun row => document row = d ∧ uri row ∈ uris)
                          (document_uris s))
         (map fst (map_to_list (documents s))).

(** Modelled from the spec: [Document.find_or_create_by_uris] of the
    missing [memex/models/document.py].  The new DocumentURI claims the
    target URI for itself, as the test [test_with_no_existing_documents]
    asserts. *)
Definition find_or_create_by_uris (target_uri : string) (other_uris : list string)
    (created updated : option datetime) (s : Session) : result (list nat) * Session :=
  let finduris := target_uri :: other_uris in
  let s :=
    match find_by_uris s finduris with
    | [] =>
        let doc := next_document s in
        let s := mkSession (<[doc := mkDocument None None created updated]> (documents s))
                           (document_uris s
                              ++ [mkDocumentURI target_uri target_uri "self-claim" ""
                                                doc created updated])
                           (document_meta s) (S doc) (warnings s) (flushes s)
                           (flush_raises s) in
        s
    | _ => s
    end in
  flush_or_retryable (find_by_uris s finduris) s.

(** Modelled from the spec: in the missing [create_or_update_document_uri],
    a [type] or [content_type] of [None] is coerced to the empty string. *)
Definition or_empty (x : option string) : string := default "" x.

(** Modelled from the spec: a denormalized field of a Document of the
    missing [memex/models/document.py] that is null or empty counts as
    unset. *)
Definition unset (x : option string) : bool :=
  match x with
  | None => true
  | Some x => bool_decide (x = "")
  end.

(** Modelled from the spec: the test of the missing
    [create_or_update_document_uri] for a web URI: it starts with
    [http://] or [https://]. *)
Definition is_http (uri : string) : bool :=
  String.prefix "http://" uri || String.prefix "https://" uri.

Definition set_updated (row : DocumentURI) (u : option datetime) : DocumentURI :=
  mkDocumentURI (claimant row) (uri row) (type row) (content_type row)
                (document row) (created row) u.

Definition set_document (row : DocumentURI) (d : nat) : DocumentURI :=
  mkDocumentURI (claimant row) (uri row) (type row) (content_type row)
                d (created row) (updated row).

Definition set_web_uri (d : Document) (u : string) : Document :=
  mkDocument (Some u) (title d) (document_created d) (document_updated d).

Definition set_title (d : Document) (t : string) : Document :=
  mkDocument (web_uri d) (Some t) (document_created d) (document_updated d).

Definition set_document_updated (u : option datetime) (d : Document) : Document :=
  mkDocument (web_uri d) (title d) (document_created d) u.

(** Modelled from the spec: the uniqueness key of a DocumentURI of the
    missing [memex/models/document.py]. *)
Definition uri_key (row : DocumentURI) : string * string * string * string :=
  (claimant row, uri row, type row, content_type row).

(** Modelled from the spec: [create_or_update_document_uri] of the
    missing [memex/models/document.py]. *)
Definition create_or_update_document_uri (claimant_ uri_ : string)
    (type_ content_type_ : option string) (document_ : nat)
    (created_ updated_ : option datetime) (s : Session) : result unit * Session :=
  let type_ := or_empty type_ in
  let content_type_ := or_empty content_type_ in
  let s :=
    match list_find (fun row => uri_key row = (claimant_, uri_, type_, content_type_))
                    (document_uris s) with
    | Some (i, docuri) =>
        let s := set_document_uris s (<[i := set_updated docuri updated_]> (document_uris s)) in
        if bool_decide (document docuri ≠ document_)
        then warn (DocumentMismatch (document docuri) document_) s else s
    | None =>
        set_document_uris s
          (document_uris s
             ++ [mkDocumentURI claimant_ uri_ type_ content_type_ document_
                               created_ updated_])
    end in
  let s :=
    match documents s !! document_ with
    | Some d =>
        if unset (web_uri d) && is_http uri_
        then set_documents s (<[document_ := set_web_uri d uri_]> (documents s))
        else s
    | None => s
    end in
  flush_or_retryable () s.

Definition meta_set_value (row : DocumentMeta) (v : string * list string)
    (u : option datetime) : DocumentMeta :=
  mkDocumentMeta (meta_claimant row) (meta_type row) v (meta_document row)
                 (meta_created row) u.

Definition meta_set_document (row : DocumentMeta) (d : nat) : DocumentMeta :=
  mkDocumentMeta (meta_claimant row) (meta_type row) (value row) d
                 (meta_created row) (meta_updated row).

(** Modelled from the spec: [create_or_update_document_meta] of the
    missing [memex/models/document.py]. *)
Definition create_or_update_document_meta (claimant_ type_ : string)
    (value_ : string * list string) (document_ : nat)
    (created_ updated_ : option datetime) (s : Session) : result unit * Session :=
  let s :=
    match list_find (fun row => meta_claimant row = claimant_ ∧ meta_type row = type_)
                    (document_meta s) with
    | Some (i, existing) =>
        let s := set_document_meta s
                   (<[i := meta_set_value existing value_ updated_]> (document_meta s)) in
        if bool_decide (meta_document existing ≠ document_)
        then warn (DocumentMismatch (meta_document existing) document_) s else s
    | None =>
        set_document_meta s
          (document_meta s
             ++ [mkDocumentMeta claimant_ type_ value_ document_ created_ updated_])
    end in
  let s :=
    match documents s !! document_ with
    | Some d =>
        if bool_decide (type_ = "title") && unset (title d)
        then set_documents s (<[document_ := set_title d (fst value_)]> (documents s))
        else s
    | None => s
    end in
  flush_or_retryable () s.

(** Modelled from the spec: the reassignment step of the missing
    [merge_documents]: every DocumentURI and DocumentMeta owned by
    [duplicate] becomes [master]'s. *)
Definition reassign (duplicate master : nat) (s : Session) : Session :=
  let s := set_document_uris s
             (map (fun row => if bool_decide (document row = duplicate)
                              then set_document row master else row)
                  (document_uris s)) in
  set_document_meta s
    (map (fun row => if bool_decide (meta_document row = duplicate)
                     then meta_set_document row master else row)
         (document_meta s)).

(** Modelled from the spec: destroying a Document in the missing
    [memex/models/document.py] deletes it and, by cascade, the rows it
    owns. *)
Definition destroy (d : nat) (s : Session) : Session :=
  let s := set_documents s (delete d (documents s)) in
  let s := set_document_uris s
             (filter (fun row => document row ≠ d) (document_uris s)) in
  set_document_meta s (filter (fun row => meta_document row ≠ d) (document_meta s)).

(** Modelled from the spec: [merge_documents] of the missing
    [memex/models/document.py].  The master is the first element of the
    list; an empty list has none. *)
Definition merge_documents (document_list : list nat)
    (updated_ : option datetime) (s : Session) : result nat * Session :=
  match document_list with
  | [] => (Raise IndexError, s)
  | master :: duplicates =>
      let s := foldl (fun s doc => destroy doc (reassign doc master s)) s duplicates in
      let s :=
        match updated_ with
        | Some u => set_documents s (alter (set_document_updated (Some u)) master (documents s))
        | None => s
        end in
      flush_or_retryable master s
  end.

End DocumentStore.

(** ** Part III: [h/accounts/services.py], class [UserService] *)

Module Accounts.

(** [h.models.User] and the database behind the session:
    [one_or_none db userid] is
    [session.query(User).filter_by(userid=userid).one_or_none()]. *)
Class UserModel := {
  User : Type;
  Database : Type;
  one_or_none : Database -> string -> option User;
}.

Section UserService.

Context `{UM : UserModel}.

(** A [UserService] and the session it was created on: what the session's
    queries see, the service's [_cache], and the userids the service has
    queried the session for. *)
Record UserService := mkUserService {
  session : Database;
  _cache : gmap string (option User);
  queries : list string;
}.

(** [UserService.__init__], lines 20-35: the cache starts empty, and
    [flush_cache] is registered for the session's [after_commit] and
    [after_rollback] events. *)
Definition UserService_init (session : Database) : UserService :=
  mkUserService session ∅ [].

(** The listener [flush_cache], lines 34-35. *)
Definition flush_cache (self : UserService) : UserService :=
  mkUserService (session self) ∅ (queries self).

(** [UserService.fetch], lines 37-49. *)
Definition fetch (self : UserService) (userid : string) : option User * UserService :=
  let self :=
    if bool_decide (userid ∉ dom (_cache self))
    then
      let found := one_or_none (session self) userid in
      mkUserService (session self) (<[userid := found]> (_cache self))
                    (queries self ++ [userid])
    else self in
  (default None (_cache self !! userid), self).

(** What can happen to the service and its session: a fetch, a change of
    the database contents the session sees, and the two transaction
    boundaries, after which the session fires the registered listener.
    [db] is what the session sees afterwards. *)
Inductive event :=
  | Fetch (userid : string)
  | Write (db : Database)
  | Commit (db : Database)
  | Rollback (db : Database).

Definition set_session (self : UserService) (db : Database) : UserService :=
  mkUserService db (_cache self) (queries self).

Definition step (self : UserService) (e : event) : UserService :=
  match e with
  | Fetch userid => (fetch self userid).2
  | Write db => set_session self db
  | Commit db => flush_cache (set_session self db)
  | Rollback db => flush_cache (set_session self db)
  end.

Definition boundary (e : event) : bool :=
  match e with
  | Commit _ | Rollback _ => true
  | _ => false
  end.

(** How many of the queries in [qs] ask for [userid]. *)
Definition queries_for (userid : string) (qs : list string) : nat :=
  length (filter (fun q => q = userid) qs).

End UserService.

End Accounts.

(** ** Configuring a [Search] before it runs *)

Module SearchSetup.
Import SearchCore.

Section Setup.

Context `{D : Domain} `{C : !Collaborators}.

(** A call of one of the three configuration methods of [Search],
    core.py lines 60-71. *)
Inductive setup_call :=
  | CallAppendFilter (filter_ : Filter)
  | CallAppendMatcher (matcher : Matcher)
  | CallAppendAggregation (aggregation : Aggregation).

Definition apply_setup_call (self : Search) (c : setup_call) : Search :=
  match c with
  | CallAppendFilter filter_ => append_filter self filter_
  | CallAppendMatcher matcher => append_matcher self matcher
  | CallAppendAggregation aggregation => append_aggregation self aggregation
  end.

(** The calls made on one [Search] object, in order. *)
Definition setup (self : Search) (calls : list setup_call) : Search :=
  foldl apply_setup_call self calls.

Definition filters_of (calls : list setup_call) : list Filter :=
  omap (fun c => match c with CallAppendFilter f => Some f | _ => None end) calls.

Definition matchers_of (calls : list setup_call) : list Matcher :=
  omap (fun c => match c with CallAppendMatcher m => Some m | _ => None end) calls.

Definition aggregations_of (calls : list setup_call) : list Aggregation :=
  omap (fun c => match c with CallAppendAggregation a => Some a | _ => None end) calls.

End Setup.

End SearchSetup.

(** ** Part IV: [h/auth/__init__.py] *)

Module Auth.

(** The three policy objects built when the module is imported, lines
    21-24. *)
Inductive base_policy :=
  | PROXY_POLICY
  | SESSION_POLICY
  | TOKEN_POLICY.

(** The two composite policies the module builds from them. *)
Inductive policy :=
  | AuthenticationPolicy (api_policy fallback_policy : base_policy)
  | MultiAuthenticationPolicy (policies : list base_policy).

(** Values of the settings dict, with Python's truth value. *)
Inductive setting :=
  | SNone
  | SBool (b : bool)
  | SInt (n : Z)
  | SStr (s : string).

Definition truthy (v : setting) : bool :=
  match v with
  | SNone => false
  | SBool b => b
  | SInt n => negb (n =? 0)
  | SStr s => negb (bool_decide (s = ""))
  end.

(** The module's globals and its logger. *)
Record Globals := mkGlobals {
  DEFAULT_POLICY : policy;
  WEBSOCKET_POLICY : policy;
  log : list string;
}.

(** The globals as lines 26-28 leave them at import time. *)
Definition globals_at_import : Globals :=
  mkGlobals (AuthenticationPolicy TOKEN_POLICY SESSION_POLICY)
            (MultiAuthenticationPolicy [TOKEN_POLICY; SESSION_POLICY])
            [].

(** What [config.add_request_method] is given: a function or a dotted
    name, the name of the method, and the [reify] flag. *)
Inductive callable :=
  | Function (name : string)
  | DottedName (path : string).

Record request_method := mkRequestMethod {
  method_callable : callable;
  method_name : option string;
  method_reify : bool;
}.

(** The part of the Pyramid configurator [includeme] reads and writes. *)
Record Configurator := mkConfigurator {
  settings : gmap string setting;
  authentication_policy : option policy;
  request_methods : list request_method;
}.

Definition proxy_warning : string :=
  "Enabling proxy authentication mode: you MUST ensure that the X-Forwarded-User request header can ONLY be set by trusted downstream reverse proxies! Failure to heed this warning will result in ALL DATA stored by this service being available to ANYONE!".

(** [config.registry.settings.get('h.proxy_auth')], as the condition of
    line 44. *)
Definition proxy_auth (config : Configurator) : bool :=
  match settings config !! "h.proxy_auth" with
  | Some v => truthy v
  | None => false
  end.

(** [includeme], lines 40-64. *)
Definition includeme (config : Configurator) (g : Globals) : Configurator * Globals :=
  let g :=
    if proxy_auth config
    then mkGlobals (AuthenticationPolicy TOKEN_POLICY PROXY_POLICY)
                   (MultiAuthenticationPolicy [TOKEN_POLICY; PROXY_POLICY])
                   (log g ++ [proxy_warning])
    else g in
  let config :=
    mkConfigurator (settings config) (Some (DEFAULT_POLICY g))
                   (request_methods config) in
  let config :=
    mkConfigurator (settings config) (authentication_policy config)
                   (request_methods config
                      ++ [mkRequestMethod (Function "auth_domain")
                                          (Some "auth_domain") true]) in
  let config :=
    mkConfigurator (settings config) (authentication_policy config)
                   (request_methods config
                      ++ [mkRequestMethod (DottedName ".tokens.auth_token")
                                          None true]) in
  (config, g).

(** The globals after [includeme] has been called on each of [configs],
    in order. *)
Definition include_all (configs : list Configurator) (g : Globals) : Globals :=
  foldl (fun g config => (includeme config g).2) g configs.

End Auth.

(** ** Sequences of calls on the document store *)

Module DocumentCalls.
Import DocumentStore.

(** Modelled from the spec: a call of one of the four write paths of the
    missing [memex/models/document.py], with its arguments. *)
Inductive store_call :=
  | CallFindOrCreate (target_uri : string) (other_uris : list string)
      (created_ updated_ : option datetime)
  | CallUpsertURI (claimant_ uri_ : string) (type_ content_type_ : option string)
      (document_ : nat) (created_ updated_ : option datetime)
  | CallUpsertMeta (claimant_ type_ : string) (value_ : string * list string)
      (document_ : nat) (created_ updated_ : option datetime)
  | CallMerge (document_list : list nat) (updated_ : option datetime).

(** The session a call leaves behind, whether it returns or raises. *)
Definition call_store (s : Session) (c : store_call) : Session :=
  match c with
  | CallFindOrCreate target_uri other_uris created_ updated_ =>
      (find_or_create_by_uris target_uri other_uris created_ updated_ s).2
  | CallUpsertURI claimant_ uri_ type_ content_type_ document_ created_ updated_ =>
      (create_or_update_document_uri claimant_ uri_ type_ content_type_ document_
         created_ updated_ s).2
  | CallUpsertMeta claimant_ type_ value_ document_ created_ updated_ =>
      (create_or_update_document_meta claimant_ type_ value_ document_
         created_ updated_ s).2
  | CallMerge document_list updated_ => (merge_documents document_list updated_ s).2
  end.

Definition call_store_all (s : Session) (calls : list store_call) : Session :=
  foldl call_store s calls.

Definition is_find_or_create (c : store_call) : bool :=
  match c with
  | CallFindOrCreate _ _ _ _ => true
  | _ => false
  end.

(** Every DocumentURI is owned by a Document of the store. *)
Definition uris_owned (s : Session) : Prop :=
  ∀ row, row ∈ document_uris s -> is_Some (documents s !! document row).

End DocumentCalls.

(** ** Test doubles for the search orchestrator

    In the style of the repository's tests: the backend is a stub that
    answers the n-th call it receives with the n-th response of a script. *)

Module SearchScenario.
Import SearchCore.

(** Requests carry nothing, scores and aggregation payloads are integers,
    and a request body records how many filters and matchers the builder
    had, and the parameters it was built with. *)
Definition stub_domain : Domain := {|
  Request := unit;
  Score := Z;
  Raw := Z;
  Parsed := Z;
  Body := nat * nat * gmap string param;
  Conn := nat;
|}.
#[local] Existing Instance stub_domain.

Definition empty_response : Response := mkResponse 0 [] None.

Definition stub_collaborators (script : list Response) : Collaborators := {|
  es_index := fun _ => "annotator";
  es_t_annotation := fun _ => "annotation";
  registry_filters := fun _ => [];
  registry_matchers := fun _ => [];
  build := fun b params => (length (filters b), length (matchers b), params);
  conn_search := fun n _ => (nth n script empty_response, S n);
|}.

(** A call to the stub's index whose body was built from a builder with
    [nf] filters and [nm] matchers. *)
Definition stub_call (nf nm : nat) (params : gmap string param) : SearchCall :=
  mkSearchCall "annotator" "annotation" false (nf, nm, params).

(** The world when the module has just been imported. *)
Definition fresh_world : World := mkWorld ∅ [] [] 0%nat [].

(** Three annotation hits, then 250 replies of which the backend returns
    a page of 200. *)
Definition three_hits : Response :=
  mkResponse 3 [mkHit "a1" 30; mkHit "a2" 20; mkHit "a3" 10] None.

Definition reply_page : Response :=
  mkResponse 250 (map (fun i => mkHit ("r" +:+ pretty i) 1) (seq 0 200)) None.

Definition scenario_script : list Response := [three_hits; reply_page].

(** Two searches with different hits. *)
Definition first_answer : Response := mkResponse 1 [mkHit "a1" 30] None.
Definition second_answer : Response := mkResponse 1 [mkHit "b1" 7] None.
Definition two_searches_script : list Response := [first_answer; second_answer].

(** A response with two aggregation buckets, for a search that has one
    aggregation component. *)
Definition tags_aggregation : Aggregation := mkAggregation "tags" (fun raw => raw + 1).
Definition bucketed_answer : Response :=
  mkResponse 0 [] (Some {[ "tags" := 5; "users" := 7 ]}).

End SearchScenario.

(** ** Test data for the document store and the user service *)

Module DocumentScenario.
Import DocumentStore.

Definition main_page : string := "https://en.wikipedia.org/wiki/Main_Page".
Definition mobile_page : string := "https://m.en.wikipedia.org/wiki/Main_Page".
Definition wikipedia_title : string * list string :=
  ("Wikipedia, the free encyclopedia", []).

(** The fixture [merge_data] of [TestMergeDocuments]: Document 1 is the
    master, Document 2 the duplicate, each with one DocumentURI and one
    DocumentMeta. *)
Definition merge_data (flush_raises : nat -> bool) : Session :=
  mkSession
    {[ 1%nat := mkDocument None None None None;
       2%nat := mkDocument None None None None ]}
    [mkDocumentURI main_page main_page "self-claim" "" 1 None None;
     mkDocumentURI mobile_page main_page "rel-canonical" "" 2 None None]
    [mkDocumentMeta main_page "title" wikipedia_title 1 None None;
     mkDocumentMeta mobile_page "title" wikipedia_title 2 None None]
    3 [] 0 flush_raises.

(** A flush that goes through, and one that raises on the first attempt
    only. *)
Definition flush_succeeds : nat -> bool := fun _ => false.
Definition first_flush_raises : nat -> bool := fun n => bool_decide (n = 0%nat).

(** The session of [test_it_updates_the_existing_DocumentURI_if_there_is_one],
    with yesterday as day 1 and now as day 2. *)
Definition example_claimant : string := "http://example.com/example_claimant.html".
Definition example_uri : string := "http://example.com/example_uri.html".
Definition one_document_uri : Session :=
  mkSession
    {[ 1%nat := mkDocument None None None None ]}
    [mkDocumentURI example_claimant example_uri "self-claim" "" 1 (Some 1) (Some 1)]
    [] 2 [] 0 flush_succeeds.

End DocumentScenario.

Module AccountsScenario.
Import Accounts.

(** Users are numbers and the database maps a userid to at most one. *)
Definition stub_users : UserModel := {|
  User := nat;
  Database := gmap string nat;
  one_or_none := fun db userid => db !! userid;
|}.

#[local] Existing Instance stub_users.

Definition foo : string := "acct:foo@example.com".
Definition bar : string := "acct:bar@example.com".

(** A database in which [foo] is user 1, and the same database after
    [foo] has become user 2. *)
Definition foo_is_1 : Database := ({[ foo := 1%nat ]} : gmap string nat).
Definition foo_is_2 : Database := ({[ foo := 2%nat ]} : gmap string nat).

(** A fresh service, and a write followed by a fetch of another user. *)
Definition service : UserService := UserService_init foo_is_1.
Definition write_then_fetch_bar : list event := [Write foo_is_2; Fetch bar].

End AccountsScenario.

(** ** More test data *)

Module MoreScenarios.
Import SearchCore SearchScenario.

#[local] Existing Instance stub_domain.

(** A response in which one id occurs in two hits. *)
Definition repeated_id_answer : Response :=
  mkResponse 2 [mkHit "a1" 30; mkHit "a1" 5] None.

Definition first_hit : Hit := mkHit "a1" 30.
Definition last_hit : Hit := mkHit "a1" 5.

End MoreScenarios.

Module MoreDocumentScenarios.
Import DocumentStore DocumentCalls DocumentScenario.

Definition pluto : string := "https://en.wikipedia.org/wiki/Pluto".
Definition mobile_pluto : string := "https://m.en.wikipedia.org/wiki/Pluto".

(** The fixture [merge_data] with a flush that goes through. *)
Definition two_documents : Session := merge_data flush_succeeds.

(** The title claim of the master in [merge_data], and the rel-canonical
    claim of the duplicate. *)
Definition master_title : DocumentMeta :=
  mkDocumentMeta main_page "title" wikipedia_title 1 None None.
Definition duplicate_uri : DocumentURI :=
  mkDocumentURI mobile_page main_page "rel-canonical" "" 2 None None.

(** A first claim of a web URI for Document 1, and a later one. *)
Definition first_claim : store_call :=
  CallUpsertURI example_claimant example_uri (Some "self-claim") None 1
                (Some 2) (Some 2).
Definition second_uri : string := "http://example.com/second_uri.html".
Definition later_claim : store_call :=
  CallUpsertURI example_claimant second_uri (Some "self-claim") None 1
                (Some 3) (Some 3).
Definition after_first_claim : Session := call_store one_document_uri first_claim.

End MoreDocumentScenarios.

(** ** Properties of the search orchestrator *)

Module SearchCoreSpec.
Import SearchCore.

Section Facts.

Context `{D : Domain} `{C : !Collaborators}.

Implicit Types (self : Search) (w : World) (params : gmap string param).

(** The scoring loop touches the module-level dict and nothing else. *)
Lemma set_scores_world (hits : list Hit) w :
  foldl (fun w itemvar => set_score itemvar w) w hits =
  mkWorld (record_scores hits (module_annotation_ids_map w))
          (log w) (stdout w) (es_conn w) (es_calls w).
Proof.
  revert w. induction hits as [|h hits IH]; intros w; simpl.
  - by destruct w.
  - rewrite IH. reflexivity.
Qed.

(** [search_annotations], with the backend's answer named. *)
Lemma search_annotations_eq self params w :
  let self1 := append_top_level_filter self in
  let r := (annotation_response self params (es_conn w)).1 in
  let c := (annotation_response self params (es_conn w)).2 in
  search_annotations self params w =
  ((hits_total r, map _id (hits_hits r), global_annotation_ids_map,
    _parse_aggregation_results self1 (response_aggregations r)),
   self1,
   mkWorld (record_scores (hits_hits r) (module_annotation_ids_map w))
           (log w)
           (stdout w ++ [PrintParams params] ++ [PrintResponse r])
           c
           (es_calls w ++ [annotation_call self1 params])).
Proof.
  intros self1 r c. unfold search_annotations, es_search.
  subst r c. unfold annotation_response. fold self1. simpl.
  destruct (conn_search (es_conn w) (annotation_call self1 params)) as [r c].
  simpl. rewrite set_scores_world. simpl. by rewrite <-app_assoc.
Qed.

(** [search_replies] when replies are separated. *)
Lemma search_replies_eq self ids w :
  separate_replies self = true ->
  let self2 := append_replies_matcher self ids in
  let r := (conn_search (es_conn w) (reply_call self2)).1 in
  let c := (conn_search (es_conn w) (reply_call self2)).2 in
  search_replies self ids w =
  (map _id (hits_hits r), self2,
   mkWorld (module_annotation_ids_map w)
           (log w ++ (if bool_decide (Z.of_nat (length (hits_hits r)) < hits_total r)
                      then [reply_page_warning] else []))
           (stdout w) c (es_calls w ++ [reply_call self2])).
Proof.
  intros Hsep self2 r c. unfold search_replies, es_search. rewrite Hsep. simpl.
  subst r c. fold self2.
  destruct (conn_search (es_conn w) (reply_call self2)) as [r c]. simpl.
  case_bool_decide; unfold log_warn; simpl.
  - reflexivity.
  - rewrite app_nil_r. reflexivity.
Qed.

Lemma search_replies_off self ids w :
  separate_replies self = false -> search_replies self ids w = ([], self, w).
Proof. intros Hsep. unfold search_replies. rewrite Hsep. reflexivity. Qed.

Lemma separate_replies_top_level self :
  separate_replies (append_top_level_filter self) = separate_replies self.
Proof.
  unfold append_top_level_filter.
  destruct (separate_replies self) eqn:Hsep; simpl; congruence.
Qed.

(** [run] when replies are separated: two backend calls, in this order. *)
Lemma run_separate self params w :
  separate_replies self = true ->
  let self1 := append_top_level_filter self in
  let r1 := (annotation_response self params (es_conn w)).1 in
  let c1 := (annotation_response self params (es_conn w)).2 in
  let ids := map _id (hits_hits r1) in
  let self2 := append_replies_matcher self1 ids in
  let r2 := (reply_response self ids c1).1 in
  let c2 := (reply_response self ids c1).2 in
  run self params w =
  (mkSearchResult (hits_total r1) ids global_annotation_ids_map
     (map _id (hits_hits r2))
     (_parse_aggregation_results self1 (response_aggregations r1)),
   self2,
   mkWorld (record_scores (hits_hits r1) (module_annotation_ids_map w))
           (log w ++ (if bool_decide (Z.of_nat (length (hits_hits r2)) < hits_total r2)
                      then [reply_page_warning] else []))
           (stdout w ++ [PrintParams params] ++ [PrintResponse r1])
           c2
           (es_calls w ++ [annotation_call self1 params; reply_call self2])).
Proof.
  intros Hsep self1 r1 c1 ids self2 r2 c2.
  unfold run. rewrite search_annotations_eq.
  rewrite search_replies_eq by (by rewrite separate_replies_top_level).
  simpl. rewrite <-app_assoc. reflexivity.
Qed.

(** [run] when replies are not separated: one backend call. *)
Lemma run_together self params w :
  separate_replies self = false ->
  let r1 := (annotation_response self params (es_conn w)).1 in
  let c1 := (annotation_response self params (es_conn w)).2 in
  run self params w =
  (mkSearchResult (hits_total r1) (map _id (hits_hits r1)) global_annotation_ids_map
     [] (_parse_aggregation_results self (response_aggregations r1)),
   self,
   mkWorld (record_scores (hits_hits r1) (module_annotation_ids_map w))
           (log w)
           (stdout w ++ [PrintParams params] ++ [PrintResponse r1])
           c1
           (es_calls w ++ [annotation_call self params])).
Proof.
  intros Hsep r1 c1. unfold run. rewrite search_annotations_eq.
  assert (Hself : append_top_level_filter self = self).
  { unfold append_top_level_filter. by rewrite Hsep. }
  rewrite Hself, search_replies_off by done. reflexivity.
Qed.

(** *** The score map *)

Lemma record_scores_notin (hits : list Hit) (m : gmap string Score) k :
  k ∉ map _id hits -> record_scores hits m !! k = m !! k.
Proof.
  revert m. induction hits as [|h hits IH]; intros m Hk; [done|].
  simpl in *. apply not_elem_of_cons in Hk as [Hne Hk].
  unfold record_scores in *. simpl. rewrite IH by done.
  by rewrite lookup_insert_ne.
Qed.

(** For an id among the hits, the recorded score does not depend on what
    the dict held before. *)
Lemma record_scores_in (hits : list Hit) (m m' : gmap string Score) k :
  k ∈ map _id hits -> record_scores hits m !! k = record_scores hits m' !! k.
Proof.
  revert m m'. induction hits as [|h hits IH]; intros m m' Hk; simpl in *.
  - by apply elem_of_nil in Hk.
  - destruct (decide (k ∈ map _id hits)) as [Hin|Hout].
    + apply (IH _ _ Hin).
    + apply elem_of_cons in Hk as [->|Hin]; [|done].
      unfold record_scores. simpl.
      pose proof (record_scores_notin hits) as Hn. unfold record_scores in Hn.
      by rewrite !Hn, !lookup_insert_eq.
Qed.

Lemma record_scores_empty_in (hits : list Hit) k :
  is_Some (record_scores hits ∅ !! k) -> k ∈ map _id hits.
Proof.
  intros [v Hv]. destruct (decide (k ∈ map _id hits)) as [|Hout]; [done|].
  rewrite record_scores_notin in Hv by done. by rewrite lookup_empty in Hv.
Qed.

Lemma search_annotations_conn self params w :
  es_conn (search_annotations self params w).2 =
  (annotation_response self params (es_conn w)).2.
Proof. by rewrite search_annotations_eq. Qed.

(** C2. The score map is accumulated in module-level storage: after two
    successive calls of [search_annotations], on any two [Search] objects,
    whose responses have disjoint hit ids, the map returned by the second
    call contains every entry recorded by the first. *)
Theorem score_map_shared_across_calls (s1 s2 : Search) (p1 p2 : gmap string param) w :
  let r1 := (annotation_response s1 p1 (es_conn w)).1 in
  let c1 := (annotation_response s1 p1 (es_conn w)).2 in
  let r2 := (annotation_response s2 p2 c1).1 in
  (∀ i, i ∈ map _id (hits_hits r1) -> i ∉ map _id (hits_hits r2)) ->
  let w1 := (search_annotations s1 p1 w).2 in
  let '((_, _, returned2, _), _, w2) := search_annotations s2 p2 w1 in
  record_scores (hits_hits r1) ∅ ⊆ deref w2 returned2.
Proof.
  intros r1 c1 r2 Hdisj w1.
  rewrite (search_annotations_eq s2 p2 w1). simpl.
  assert (Hc : es_conn w1 = c1) by apply search_annotations_conn.
  rewrite Hc. fold r2.
  assert (Hm : module_annotation_ids_map w1 =
               record_scores (hits_hits r1) (module_annotation_ids_map w)).
  { subst w1. by rewrite search_annotations_eq. }
  rewrite Hm. apply map_subseteq_spec. intros k v Hk.
  assert (Hin : k ∈ map _id (hits_hits r1)) by (apply record_scores_empty_in; eauto).
  rewrite record_scores_notin by auto.
  by rewrite (record_scores_in _ _ ∅).
Qed.

(** *** The reply search *)

(** C4. When replies are separated, [run] makes exactly two backend calls.
    The second is built from the reply builder, to which a
    [RepliesMatcher] over the annotation ids of the first search has been
    appended, with the parameters [{'limit': 200}].  The reply list is the
    page the backend returned; when the backend reports more hits than it
    returned one warning is logged, otherwise none, and no further call is
    made in either case. *)
Theorem reply_search_single_page self params w :
  separate_replies self = true ->
  let c1 := (annotation_response self params (es_conn w)).2 in
  let result := (run self params w).1.1 in
  let w' := (run self params w).2 in
  let r2 := (reply_response self (annotation_ids result) c1).1 in
  annotation_ids result =
    map _id (hits_hits (annotation_response self params (es_conn w)).1) ∧
  es_calls w' =
    es_calls w ++
      [annotation_call (append_top_level_filter self) params;
       mkSearchCall (es_index (request self)) (es_t_annotation (request self)) false
         (build (Builder_append_matcher (reply_builder self)
                   (RepliesMatcher (annotation_ids result)))
                {[ "limit" := PInt 200 ]})] ∧
  reply_ids result = map _id (hits_hits r2) ∧
  log w' = log w ++
    (if bool_decide (Z.of_nat (length (hits_hits r2)) < hits_total r2)
     then [reply_page_warning] else []).
Proof.
  intros Hsep c1 result w' r2. subst result w' r2.
  rewrite (run_separate self params w Hsep). simpl. fold c1.
  repeat split. unfold reply_call, append_replies_matcher, append_top_level_filter.
  rewrite Hsep. reflexivity.
Qed.

(** *** The top-level filter *)

Lemma run_builder_filters self params w :
  filters (builder (run self params w).1.2) =
  filters (builder self) ++
    (if separate_replies self then [TopLevelAnnotationsFilter] else []).
Proof.
  destruct (separate_replies self) eqn:Hsep.
  - rewrite (run_separate self params w Hsep). simpl.
    unfold append_top_level_filter. by rewrite Hsep.
  - rewrite (run_together self params w Hsep). simpl. by rewrite app_nil_r.
Qed.

Lemma run_separate_replies self params w :
  separate_replies (run self params w).1.2 = separate_replies self.
Proof.
  destruct (separate_replies self) eqn:Hsep.
  - rewrite (run_separate self params w Hsep). simpl.
    by rewrite separate_replies_top_level.
  - by rewrite (run_together self params w Hsep).
Qed.

Lemma run_all_cons self params paramss w :
  run_all self (params :: paramss) w =
  run_all (run self params w).1.2 paramss (run self params w).2.
Proof. unfold run_all. simpl. by destruct (run self params w) as [[? ?] ?]. Qed.

Lemma run_all_filters self paramss w :
  filters (builder (run_all self paramss w).1) =
  filters (builder self) ++
    (if separate_replies self
     then replicate (length paramss) TopLevelAnnotationsFilter else []).
Proof.
  revert self w. induction paramss as [|params paramss IH]; intros self w.
  - simpl. destruct (separate_replies self); by rewrite app_nil_r.
  - rewrite run_all_cons, IH, run_builder_filters, run_separate_replies.
    destruct (separate_replies self); simpl.
    + by rewrite <-app_assoc.
    + by rewrite !app_nil_r.
Qed.

(** C5. A [Search] that separates replies appends one
    [TopLevelAnnotationsFilter] to its annotation builder in every call of
    [run], before the annotation search is executed: the search is built
    from the builder that already has it, and after n calls the builder's
    filter list has grown by n such filters.  A [Search] that does not
    separate replies leaves the filter list as it is. *)
Theorem top_level_filter_appended_by_every_run self paramss params w :
  filters (builder (run_all self paramss w).1) =
    filters (builder self) ++
      (if separate_replies self
       then replicate (length paramss) TopLevelAnnotationsFilter else []) ∧
  (run self params w).2.(es_calls) !! length (es_calls w) =
    Some (mkSearchCall (es_index (request self)) (es_t_annotation (request self)) false
            (build (mkBuilder
                      (filters (builder self) ++
                         (if separate_replies self
                          then [TopLevelAnnotationsFilter] else []))
                      (matchers (builder self))
                      (builder_aggregations (builder self)))
                   params)).
Proof.
  split; [apply run_all_filters|].
  destruct (separate_replies self) eqn:Hsep.
  - rewrite (run_separate self params w Hsep). simpl.
    rewrite lookup_app_r, Nat.sub_diag by done. simpl.
    unfold annotation_call, append_top_level_filter. rewrite Hsep. reflexivity.
  - rewrite (run_together self params w Hsep). simpl.
    rewrite lookup_app_r, Nat.sub_diag by done. simpl.
    unfold annotation_call. rewrite app_nil_r. by destruct self as [? ? []].
Qed.

(** *** Aggregations *)

Lemma first_agg_Some k (aggs : list Aggregation) agg :
  first_agg k aggs = Some agg <->
  ∃ before after, aggs = before ++ agg :: after ∧ key agg = k ∧
                  ∀ a, a ∈ before -> key a ≠ k.
Proof.
  induction aggs as [|a aggs IH]; simpl.
  - split; [done|]. intros (before & after & Heq & _). by destruct before.
  - case_bool_decide as Hk.
    + rewrite IH. split.
      * intros (before & after & -> & Hkey & Hbefore).
        exists (a :: before), after. split_and!; [done..|].
        intros a' [->|Ha']%elem_of_cons; [congruence|auto].
      * intros (before & after & Heq & Hkey & Hbefore).
        destruct before as [|b before]; simplify_eq/=.
        exists before, after. split_and!; [done..|].
        intros a' Ha'. apply Hbefore. by right.
    + split.
      * intros [= ->]. exists [], aggs. split_and!; [done..|].
        intros a' Ha'. by apply elem_of_nil in Ha'.
      * intros (before & after & Heq & Hkey & Hbefore).
        destruct before as [|b before]; simplify_eq/=; [done|].
        exfalso. apply (Hbefore b); [by left|done].
Qed.

Lemma first_agg_None k (aggs : list Aggregation) :
  first_agg k aggs = None <-> ∀ a, a ∈ aggs -> key a ≠ k.
Proof.
  induction aggs as [|a aggs IH]; simpl.
  - split; [|done]. intros _ a Ha. by apply elem_of_nil in Ha.
  - case_bool_decide as Hk.
    + rewrite IH. split.
      * intros Hall a' [->|Ha']%elem_of_cons; [congruence|auto].
      * intros Hall a' Ha'. apply Hall. by right.
    + split; [done|].
      intros Hall. exfalso. apply (Hall a); [by left|done].
Qed.

(** The dict built by [_parse_aggregation_results], read key by key. *)
Lemma parse_aggregation_results_lookup self (aggregations : option (gmap string Raw)) k :
  _parse_aggregation_results self aggregations !! k =
  match aggregations ≫= (.!! k), first_agg k (builder_aggregations (builder self)) with
  | Some result, Some agg => Some (parse_result agg result)
  | _, _ => None
  end.
Proof.
  unfold _parse_aggregation_results.
  destruct aggregations as [m|]; simpl; [|by rewrite lookup_empty].
  case_bool_decide as Hm; [subst m; by rewrite !lookup_empty|].
  clear Hm.
  apply (map_fold_weak_ind (fun results m =>
    results !! k =
    match m !! k, first_agg k (builder_aggregations (builder self)) with
    | Some result, Some agg => Some (parse_result agg result)
    | _, _ => None
    end)).
  - by rewrite !lookup_empty.
  - intros i x m' results Hi IH.
    destruct (decide (i = k)) as [->|Hne].
    + rewrite lookup_insert_eq.
      destruct (first_agg k _) as [agg|]; [by rewrite lookup_insert_eq|].
      rewrite IH, Hi. done.
    + rewrite lookup_insert_ne by done.
      destruct (first_agg i _) as [agg|]; [rewrite lookup_insert_ne by done|]; apply IH.
Qed.

Lemma run_aggregations self params w :
  aggregations (run self params w).1.1 =
  _parse_aggregation_results self
    (response_aggregations (annotation_response self params (es_conn w)).1).
Proof.
  destruct (separate_replies self) eqn:Hsep.
  - rewrite (run_separate self params w Hsep). simpl.
    unfold _parse_aggregation_results, append_top_level_filter. by rewrite Hsep.
  - by rewrite (run_together self params w Hsep).
Qed.

(** C6. The [aggregations] mapping of the result of [run] sends the name
    of each bucket of the annotation-search response to what
    [parse_result] of the first appended component with that key makes of
    the bucket; a bucket that no appended component matches is absent,
    and so is every name the response has no bucket for, in particular
    every name when the response carries no aggregations.  Components are
    the ones given to [append_aggregation], in the order given. *)
Theorem aggregations_dispatched_by_key self params w k :
  let r := (annotation_response self params (es_conn w)).1 in
  let result := (run self params w).1.1 in
  aggregations result !! k =
    match response_aggregations r ≫= (.!! k),
          first_agg k (builder_aggregations (builder self)) with
    | Some raw, Some agg => Some (parse_result agg raw)
    | _, _ => None
    end ∧
  (response_aggregations r = None -> aggregations result = ∅) ∧
  (∀ agg, first_agg k (builder_aggregations (builder self)) = Some agg <->
     ∃ before after,
       builder_aggregations (builder self) = before ++ agg :: after ∧
       key agg = k ∧ ∀ a, a ∈ before -> key a ≠ k) ∧
  (first_agg k (builder_aggregations (builder self)) = None <->
     ∀ a, a ∈ builder_aggregations (builder self) -> key a ≠ k) ∧
  (∀ a, builder_aggregations (builder (append_aggregation self a)) =
        builder_aggregations (builder self) ++ [a]).
Proof.
  intros r result. subst result. rewrite run_aggregations. fold r.
  split_and!.
  - apply parse_aggregation_results_lookup.
  - by intros ->.
  - intros agg. apply first_agg_Some.
  - apply first_agg_None.
  - done.
Qed.

(** C1. With [separate_replies=True], against a backend whose annotation
    search returns 3 hits and whose reply search reports 250 hits and
    returns a page of 200, [run({})] returns [total=3], the 3 annotation
    ids in backend order and the 200 reply ids, and logs the truncation
    warning. *)
Theorem run_three_hits_250_replies self w :
  separate_replies self = true ->
  let r1 := (annotation_response self ∅ (es_conn w)).1 in
  let c1 := (annotation_response self ∅ (es_conn w)).2 in
  let r2 := (reply_response self (map _id (hits_hits r1)) c1).1 in
  hits_total r1 = 3 -> length (hits_hits r1) = 3%nat ->
  hits_total r2 = 250 -> length (hits_hits r2) = 200%nat ->
  let result := (run self ∅ w).1.1 in
  let w' := (run self ∅ w).2 in
  total result = 3 ∧
  annotation_ids result = map _id (hits_hits r1) ∧
  length (annotation_ids result) = 3%nat ∧
  reply_ids result = map _id (hits_hits r2) ∧
  length (reply_ids result) = 200%nat ∧
  log w' = log w ++ [reply_page_warning].
Proof.
  intros Hsep r1 c1 r2 Ht1 Hn1 Ht2 Hn2 result w'.
  subst result w'. rewrite (run_separate self ∅ w Hsep). simpl.
  fold r1 c1. fold r2.
  rewrite !length_map, Hn1, Hn2, Ht1, Ht2.
  repeat split; reflexivity.
Qed.

End Facts.

Lemma score_map_shared_across_calls_witness :
  let C := SearchScenario.stub_collaborators SearchScenario.two_searches_script in
  let s1 := Search_init (D := SearchScenario.stub_domain) () false in
  let s2 := Search_init (D := SearchScenario.stub_domain) () true in
  let w1 := (search_annotations s1 ∅ SearchScenario.fresh_world).2 in
  let '((_, ids2, returned2, _), _, w2) := search_annotations s2 ∅ w1 in
  ids2 = ["b1"] ∧ ({[ "a1" := 30 ]} : gmap string Z) ⊆ deref w2 returned2.
Proof.
  intros C s1 s2 w1.
  assert (Hdisj : ∀ i : string, i ∈ ["a1"] -> i ∉ ["b1"]).
  { intros i Hi. apply list_elem_of_singleton in Hi as ->.
    intros Hb. by apply list_elem_of_singleton in Hb. }
  pose proof (score_map_shared_across_calls (C := C) s1 s2 ∅ ∅
                SearchScenario.fresh_world Hdisj) as H.
  split; [reflexivity | exact H].
Defined.

Lemma reply_search_single_page_witness :
  let C := SearchScenario.stub_collaborators SearchScenario.scenario_script in
  let self := Search_init (D := SearchScenario.stub_domain) () true in
  let result := (run self ∅ SearchScenario.fresh_world).1.1 in
  let w' := (run self ∅ SearchScenario.fresh_world).2 in
  es_calls w' =
    [SearchScenario.stub_call 5 2 ∅;
     SearchScenario.stub_call 4 3 {[ "limit" := PInt 200 ]}] ∧
  length (reply_ids result) = 200%nat ∧
  log w' = [reply_page_warning].
Proof.
  intros C self result w'.
  destruct (reply_search_single_page (C := C) self ∅ SearchScenario.fresh_world
              eq_refl) as (_ & H1 & H2 & H3).
  split; [exact H1|]. split; [|exact H3].
  unfold result. rewrite H2. reflexivity.
Defined.

(** C3, evaluated on the code.  A [Search] that does not separate replies
    runs twice against a backend that answers the first search with the
    hit [a1] and the second with the hit [b1].  The score map of the
    first result holds [b1] once the second call has returned, although
    it did not when the first call returned. *)
Theorem first_result_changed_by_second_run :
  let C := SearchScenario.stub_collaborators SearchScenario.two_searches_script in
  let self := Search_init (D := SearchScenario.stub_domain) () false in
  let '(result1, self, w1) := run self ∅ SearchScenario.fresh_world in
  let '(result2, _, w2) := run self ∅ w1 in
  annotation_ids result1 = ["a1"] ∧
  deref w1 (annotation_ids_map result1) = {[ "a1" := 30 ]} ∧
  deref w2 (annotation_ids_map result1) = {[ "a1" := 30; "b1" := 7 ]} ∧
  deref w1 (annotation_ids_map result1) !! "b1" = None ∧
  deref w2 (annotation_ids_map result1) !! "b1" = Some 7.
Proof. vm_compute. repeat split. Qed.

(** [run] on the bucketed response: the bucket [tags] goes through the
    component with that key, the bucket [users] has no component. *)
Example aggregations_example :
  let C := SearchScenario.stub_collaborators [SearchScenario.bucketed_answer] in
  let self := append_aggregation
                (Search_init (D := SearchScenario.stub_domain) () false)
                SearchScenario.tags_aggregation in
  aggregations (run self ∅ SearchScenario.fresh_world).1.1 = {[ "tags" := 6 ]}.
Proof. vm_compute. reflexivity. Qed.

Lemma run_three_hits_250_replies_witness :
  let C := SearchScenario.stub_collaborators SearchScenario.scenario_script in
  let self := Search_init (D := SearchScenario.stub_domain) () true in
  let result := (run self ∅ SearchScenario.fresh_world).1.1 in
  let w' := (run self ∅ SearchScenario.fresh_world).2 in
  total result = 3 ∧
  annotation_ids result = ["a1"; "a2"; "a3"] ∧
  length (reply_ids result) = 200%nat ∧
  log w' = [reply_page_warning].
Proof.
  intros C self result w'.
  destruct (run_three_hits_250_replies (C := C) self SearchScenario.fresh_world
              eq_refl eq_refl eq_refl eq_refl eq_refl) as (H1 & H2 & _ & _ & H3 & H4).
  split; [exact H1|]. split; [exact H2|]. split; [exact H3|exact H4].
Defined.

End SearchCoreSpec.

(** ** Properties of the document store *)

Module DocumentStoreSpec.
Import DocumentStore.

Implicit Types (s : Session).

(** *** Flushing *)

Lemma flush_or_retryable_tables {A} (a : A) s :
  let s' := (flush_or_retryable a s).2 in
  documents s' = documents s ∧ document_uris s' = document_uris s ∧
  document_meta s' = document_meta s ∧ flushes s' = S (flushes s).
Proof.
  unfold flush_or_retryable, flush. by destruct (flush_raises s (flushes s)).
Qed.

Lemma flush_or_retryable_raises {A} (a : A) s :
  flush_raises s (flushes s) = true ->
  (flush_or_retryable a s).1 = Raise ConcurrentUpdateError.
Proof. intros H. unfold flush_or_retryable, flush. by rewrite H. Qed.

Lemma flush_or_retryable_ok {A} (a : A) s :
  flush_raises s (flushes s) = false -> (flush_or_retryable a s).1 = Ok a.
Proof. intros H. unfold flush_or_retryable, flush. by rewrite H. Qed.

(** *** Upserting a DocumentURI *)

(** The DocumentURI table after [create_or_update_document_uri]. *)
Lemma create_or_update_document_uri_rows claimant_ uri_ type_ content_type_
    document_ created_ updated_ s :
  document_uris
    (create_or_update_document_uri claimant_ uri_ type_ content_type_ document_
       created_ updated_ s).2 =
  match list_find (fun row => uri_key row =
                     (claimant_, uri_, or_empty type_, or_empty content_type_))
                  (document_uris s) with
  | Some (i, docuri) => <[i := set_updated docuri updated_]> (document_uris s)
  | None => document_uris s ++
              [mkDocumentURI claimant_ uri_ (or_empty type_) (or_empty content_type_)
                             document_ created_ updated_]
  end.
Proof.
  unfold create_or_update_document_uri.
  match goal with
  | |- document_uris (flush_or_retryable _ ?s').2 = _ =>
      destruct (flush_or_retryable_tables () s') as (_ & -> & _)
  end.
  destruct (list_find _ (document_uris s)) as [[i docuri]|]; simpl.
  - case_bool_decide; simpl;
      destruct (documents s !! document_) as [d|]; simpl; try done;
      by destruct (unset (web_uri d) && is_http uri_).
  - destruct (documents s !! document_) as [d|]; simpl; try done;
      by destruct (unset (web_uri d) && is_http uri_).
Qed.

(** After an upsert, the key is in the table. *)
Lemma create_or_update_document_uri_found claimant_ uri_ type_ content_type_
    document_ created_ updated_ s :
  is_Some (list_find (fun row => uri_key row =
                        (claimant_, uri_, or_empty type_, or_empty content_type_))
             (document_uris
                (create_or_update_document_uri claimant_ uri_ type_ content_type_
                   document_ created_ updated_ s).2)).
Proof.
  rewrite create_or_update_document_uri_rows.
  set (P := fun row => uri_key row = _).
  destruct (list_find P (document_uris s)) as [[i docuri]|] eqn:Hfind.
  - apply list_find_Some in Hfind as (Hi & HP & Hfirst).
    exists (i, set_updated docuri updated_). apply list_find_Some. split_and!.
    + apply list_lookup_insert_eq. by eapply lookup_lt_Some.
    + exact HP.
    + intros j y Hj Hlt. rewrite list_lookup_insert_ne in Hj by lia. eauto.
  - rewrite list_find_app_r by done. simpl.
    rewrite decide_True by done. by eexists.
Qed.

(** C8. Two calls of [create_or_update_document_uri] with the same
    (claimant, uri, type, content_type): the second call adds no row; it
    finds the row the key designates after the first call, sets its
    [updated] to the value given and leaves its [created], and every other
    row, as they were. *)
Theorem upsert_same_key_twice (claimant_ uri_ : string) (type_ content_type_ : option string)
    (document1 document2 : nat) (created1 updated1 created2 updated2 : option datetime) s :
  let s1 := (create_or_update_document_uri claimant_ uri_ type_ content_type_
               document1 created1 updated1 s).2 in
  let s2 := (create_or_update_document_uri claimant_ uri_ type_ content_type_
               document2 created2 updated2 s1).2 in
  ∃ i existing row',
    list_find (fun row => uri_key row =
                 (claimant_, uri_, or_empty type_, or_empty content_type_))
              (document_uris s1) = Some (i, existing) ∧
    length (document_uris s2) = length (document_uris s1) ∧
    document_uris s2 = <[i := row']> (document_uris s1) ∧
    document_uris s2 !! i = Some row' ∧
    updated row' = updated2 ∧ created row' = created existing ∧
    document row' = document existing ∧ uri_key row' = uri_key existing.
Proof.
  intros s1 s2.
  destruct (create_or_update_document_uri_found claimant_ uri_ type_ content_type_
              document1 created1 updated1 s) as [[i existing] Hfind].
  fold s1 in Hfind. exists i, existing, (set_updated existing updated2).
  assert (Hrows : document_uris s2 =
                  <[i := set_updated existing updated2]> (document_uris s1)).
  { subst s2. rewrite create_or_update_document_uri_rows. by rewrite Hfind. }
  split_and!; try done.
  - by rewrite Hrows, length_insert.
  - rewrite Hrows. apply list_find_Some in Hfind as (Hi & _).
    apply list_lookup_insert_eq. by eapply lookup_lt_Some.
Qed.

(** *** Merging *)






(** *** Conflicts *)

(** C9. On each write path, when the flush raises the storage layer's
    integrity error the caller gets the retryable error, not the integrity
    error, and the session has been flushed once: there is no second
    attempt, whatever a second flush would have done. *)
Theorem flush_conflict_is_retryable s :
  flush_raises s (flushes s) = true ->
  (∀ target_uri other_uris created_ updated_,
     let out := find_or_create_by_uris target_uri other_uris created_ updated_ s in
     out.1 = Raise ConcurrentUpdateError ∧ flushes out.2 = S (flushes s)) ∧
  (∀ claimant_ uri_ type_ content_type_ document_ created_ updated_,
     let out := create_or_update_document_uri claimant_ uri_ type_ content_type_
                  document_ created_ updated_ s in
     out.1 = Raise ConcurrentUpdateError ∧ flushes out.2 = S (flushes s)) ∧
  (∀ claimant_ type_ value_ document_ created_ updated_,
     let out := create_or_update_document_meta claimant_ type_ value_
                  document_ created_ updated_ s in
     out.1 = Raise ConcurrentUpdateError ∧ flushes out.2 = S (flushes s)) ∧
  (∀ master duplicates updated_,
     let out := merge_documents (master :: duplicates) updated_ s in
     out.1 = Raise ConcurrentUpdateError ∧ flushes out.2 = S (flushes s)).
Proof.
  intros Hraise.
  assert (Hgen : ∀ {A} (a : A) s0,
            flushes s0 = flushes s -> flush_raises s0 = flush_raises s ->
            (flush_or_retryable a s0).1 = Raise ConcurrentUpdateError ∧
            flushes (flush_or_retryable a s0).2 = S (flushes s)).
  { intros A a s0 Hfl Hfr. split.
    - apply flush_or_retryable_raises. by rewrite Hfr, Hfl.
    - destruct (flush_or_retryable_tables a s0) as (_ & _ & _ & ->). by rewrite Hfl. }
  split_and!.
  - intros target_uri other_uris created_ updated_ out. subst out.
    unfold find_or_create_by_uris.
    apply Hgen; by destruct (find_by_uris s (target_uri :: other_uris)).
  - intros claimant_ uri_ type_ content_type_ document_ created_ updated_ out.
    subst out. unfold create_or_update_document_uri.
    apply Hgen;
      (destruct (list_find _ (document_uris s)) as [[i docuri]|]; simpl;
       [case_bool_decide; simpl|];
       (destruct (documents s !! document_) as [d|]; simpl; [|done]);
       by destruct (unset (web_uri d) && is_http uri_)).
  - intros claimant_ type_ value_ document_ created_ updated_ out.
    subst out. unfold create_or_update_document_meta.
    apply Hgen;
      (destruct (list_find _ (document_meta s)) as [[i existing]|]; simpl;
       [case_bool_decide; simpl|];
       (destruct (documents s !! document_) as [d|]; simpl; [|done]);
       by destruct (bool_decide (type_ = "title") && unset (title d))).
  - intros master duplicates updated_ out. subst out. unfold merge_documents.
    assert (Hloop : ∀ s0,
              let s' := foldl (fun s doc => destroy doc (reassign doc master s))
                              s0 duplicates in
              flushes s' = flushes s0 ∧ flush_raises s' = flush_raises s0).
    { induction duplicates as [|dup duplicates IH]; intros s0; simpl; [done|].
      destruct (IH (destroy dup (reassign dup master s0))) as [-> ->]. done. }
    destruct (Hloop s) as [Hfl Hfr].
    apply Hgen; destruct updated_; simpl; congruence.
Qed.



Lemma flush_conflict_is_retryable_witness :
  let s := DocumentScenario.merge_data DocumentScenario.first_flush_raises in
  (merge_documents [1; 2]%nat None s).1 = Raise ConcurrentUpdateError ∧
  flushes (merge_documents [1; 2]%nat None s).2 = 1%nat ∧
  (find_or_create_by_uris "https://en.wikipedia.org/wiki/Pluto"
     ["https://m.en.wikipedia.org/wiki/Pluto"] None None s).1
    = Raise ConcurrentUpdateError ∧
  (create_or_update_document_uri "http://example.com" "http://example.org"
     (Some "rel-canonical") (Some "text/html") 1 None None s).1
    = Raise ConcurrentUpdateError ∧
  (create_or_update_document_meta "http://example.com" "title" ("My Title", [])
     1 None None s).1
    = Raise ConcurrentUpdateError.
Proof.
  intros s.
  destruct (flush_conflict_is_retryable s eq_refl) as (Hfind & Huri & Hmeta & Hmerge).
  split; [apply Hmerge|]. split; [apply Hmerge|].
  split; [apply Hfind|]. split; [apply Huri|apply Hmeta].
Defined.

(** The test [test_it_updates_the_existing_DocumentURI_if_there_is_one]:
    the row keeps [created] from yesterday, gets [updated] from now, and
    stays the only row. *)
Example upsert_existing_example :
  let out := create_or_update_document_uri
               DocumentScenario.example_claimant DocumentScenario.example_uri
               (Some "self-claim") (Some "") 1 (Some 2) (Some 2)
               DocumentScenario.one_document_uri in
  out.1 = Ok () ∧
  document_uris out.2 =
    [mkDocumentURI DocumentScenario.example_claimant DocumentScenario.example_uri
                   "self-claim" "" 1 (Some 1) (Some 2)] ∧
  web_uri <$> documents out.2 !! 1%nat = Some (Some DocumentScenario.example_uri).
Proof. vm_compute. repeat split. Qed.

End DocumentStoreSpec.

(** ** Properties of the user service *)

Module AccountsSpec.
Import Accounts.

Section Facts.

Context `{UM : UserModel}.

Implicit Types (self : UserService) (userid : string) (e : event).

Lemma fetch_hit self userid r :
  _cache self !! userid = Some r -> fetch self userid = (r, self).
Proof.
  intros Hr. unfold fetch.
  rewrite bool_decide_false; [by rewrite Hr|].
  intros Hnot. apply Hnot, elem_of_dom. eauto.
Qed.

Lemma fetch_miss self userid :
  _cache self !! userid = None ->
  fetch self userid =
  (one_or_none (session self) userid,
   mkUserService (session self)
                 (<[userid := one_or_none (session self) userid]> (_cache self))
                 (queries self ++ [userid])).
Proof.
  intros Hr. unfold fetch.
  rewrite bool_decide_true by (by apply not_elem_of_dom).
  simpl. by rewrite lookup_insert_eq.
Qed.

(** After a fetch the userid is cached with the value returned. *)
Lemma fetch_caches self userid :
  _cache (fetch self userid).2 !! userid = Some (fetch self userid).1.
Proof.
  destruct (_cache self !! userid) as [r|] eqn:Hr.
  - by rewrite (fetch_hit _ _ _ Hr).
  - rewrite (fetch_miss _ _ Hr). simpl. apply lookup_insert_eq.
Qed.

Lemma queries_for_app userid (qs1 qs2 : list string) :
  queries_for userid (qs1 ++ qs2) =
  (queries_for userid qs1 + queries_for userid qs2)%nat.
Proof. unfold queries_for. by rewrite filter_app, length_app. Qed.

(** The queries a fetch issues: none on a hit, one on a miss. *)
Lemma fetch_queries self userid :
  queries (fetch self userid).2 =
  queries self ++ match _cache self !! userid with Some _ => [] | None => [userid] end.
Proof.
  destruct (_cache self !! userid) as [r|] eqn:Hr.
  - rewrite (fetch_hit _ _ _ Hr). by rewrite app_nil_r.
  - by rewrite (fetch_miss _ _ Hr).
Qed.

(** An event that is not a transaction boundary keeps a cached entry and
    issues no query for its userid. *)
Lemma step_keeps_entry self e userid r :
  boundary e = false ->
  _cache self !! userid = Some r ->
  _cache (step self e) !! userid = Some r ∧
  ∃ issued, queries (step self e) = queries self ++ issued ∧
            queries_for userid issued = 0%nat.
Proof.
  intros Hb Hr. destruct e as [userid'| db | db | db]; try done.
  - unfold step. destruct (_cache self !! userid') as [r'|] eqn:Hr'.
    + rewrite (fetch_hit _ _ _ Hr'). simpl. split; [done|].
      exists []. by rewrite app_nil_r.
    + rewrite (fetch_miss _ _ Hr'). simpl.
      assert (Hne : userid' ≠ userid) by congruence.
      split; [by rewrite lookup_insert_ne|].
      exists [userid']. split; [done|].
      unfold queries_for. by rewrite filter_cons, decide_False.
  - simpl. split; [done|]. exists []. by rewrite app_nil_r.
Qed.

Lemma steps_keep_entry self (events : list event) userid r :
  forallb (fun e => negb (boundary e)) events = true ->
  _cache self !! userid = Some r ->
  _cache (foldl step self events) !! userid = Some r ∧
  ∃ issued, queries (foldl step self events) = queries self ++ issued ∧
            queries_for userid issued = 0%nat.
Proof.
  revert self. induction events as [|e events IH]; intros self Hall Hr; simpl.
  - split; [done|]. exists []. by rewrite app_nil_r.
  - simpl in Hall. apply andb_prop in Hall as [Hb Hall].
    apply negb_true_iff in Hb.
    destruct (step_keeps_entry self e userid r Hb Hr) as (Hr1 & issued1 & Hq1 & Hn1).
    destruct (IH (step self e) Hall Hr1) as (Hr2 & issued2 & Hq2 & Hn2).
    split; [done|]. exists (issued1 ++ issued2). split.
    + by rewrite Hq2, Hq1, <-app_assoc.
    + by rewrite queries_for_app, Hn1, Hn2.
Qed.

(** C10. Two calls of [fetch] with one userid, with no commit or rollback
    of the session in between (other fetches and changes of the database
    may happen): the second call returns what the first returned and
    leaves the service as it found it, without a query; from the start of
    the first call to the end of the second, at most one query for the
    userid has been issued.  A commit or a rollback empties the cache, and
    the fetch that follows queries the session and returns its answer. *)
Theorem fetch_cached_until_boundary self userid (events : list event) :
  forallb (fun e => negb (boundary e)) events = true ->
  let first := fetch self userid in
  let between := foldl step first.2 events in
  let second := fetch between userid in
  second.1 = first.1 ∧
  second.2 = between ∧
  (∃ issued, queries second.2 = queries self ++ issued ∧
             (queries_for userid issued ≤ 1)%nat) ∧
  (∀ (after : UserService) e,
     boundary e = true ->
     _cache (step after e) = ∅ ∧
     (fetch (step after e) userid).1 = one_or_none (session (step after e)) userid ∧
     queries (fetch (step after e) userid).2 = queries (step after e) ++ [userid]).
Proof.
  intros Hall first between second.
  pose proof (fetch_caches self userid) as Hcached. fold first in Hcached.
  destruct (steps_keep_entry first.2 events userid first.1 Hall Hcached)
    as (Hbetween & issued & Hq & Hn).
  fold between in Hbetween, Hq.
  assert (Hsecond : second = (first.1, between)) by (by apply fetch_hit).
  rewrite Hsecond. split_and!; [done|done| |].
  - cbn [fst snd]. exists (match _cache self !! userid with Some _ => [] | None => [userid] end
            ++ issued). split.
    + rewrite Hq. unfold first. by rewrite fetch_queries, <-app_assoc.
    + rewrite queries_for_app, Hn.
      destruct (_cache self !! userid); unfold queries_for; simpl; [lia|].
      rewrite filter_cons, decide_True by done. simpl. lia.
  - intros after e He.
    assert (Hempty : _cache (step after e) = ∅) by (by destruct e).
    split; [done|].
    assert (Hmiss : _cache (step after e) !! userid = None)
      by (by rewrite Hempty, lookup_empty).
    by rewrite (fetch_miss _ _ Hmiss).
Qed.

End Facts.

Lemma fetch_cached_until_boundary_witness :
  let first := fetch AccountsScenario.service AccountsScenario.foo in
  let between := foldl step first.2 AccountsScenario.write_then_fetch_bar in
  let second := fetch between AccountsScenario.foo in
  first.1 = Some 1%nat ∧ second.1 = Some 1%nat ∧
  queries second.2 = [AccountsScenario.foo; AccountsScenario.bar] ∧
  (fetch (step second.2 (Commit AccountsScenario.foo_is_2)) AccountsScenario.foo).1
    = Some 2%nat.
Proof.
  intros first between second.
  destruct (fetch_cached_until_boundary AccountsScenario.service AccountsScenario.foo
              AccountsScenario.write_then_fetch_bar eq_refl)
    as (H1 & H2 & _ & H3).
  split; [reflexivity|]. split; [exact H1|]. split; [reflexivity|].
  exact (proj1 (proj2 (H3 second.2 (Commit AccountsScenario.foo_is_2) eq_refl))).
Defined.

End AccountsSpec.

(** ** Further properties of the search orchestrator *)

Module SearchCoreExtra.
Import SearchCore SearchSetup SearchCoreSpec.

Section Facts.

Context `{D : Domain} `{C : !Collaborators}.

Implicit Types (self : Search) (w : World) (params : gmap string param).

Lemma foldl_append_filter (b : Builder) (request : Request)
    (factories : list (Request -> Filter)) :
  foldl (fun b factory => Builder_append_filter b (factory request)) b factories =
  mkBuilder (filters b ++ map (fun factory => factory request) factories)
            (matchers b) (builder_aggregations b).
Proof.
  revert b. induction factories as [|f factories IH]; intros b; simpl.
  - rewrite app_nil_r. by destruct b.
  - rewrite IH. simpl. by rewrite <-app_assoc.
Qed.

Lemma foldl_append_matcher (b : Builder) (request : Request)
    (factories : list (Request -> Matcher)) :
  foldl (fun b factory => Builder_append_matcher b (factory request)) b factories =
  mkBuilder (filters b)
            (matchers b ++ map (fun factory => factory request) factories)
            (builder_aggregations b).
Proof.
  revert b. induction factories as [|f factories IH]; intros b; simpl.
  - rewrite app_nil_r. by destruct b.
  - rewrite IH. simpl. by rewrite <-app_assoc.
Qed.

(** X1. The default builder has the four built-in filters and the two
    built-in matchers, in the order they are appended, followed by what
    the registered factories produce, in registry order, and it has no
    aggregation. *)
Theorem default_querybuilder_components (request : Request) :
  default_querybuilder request =
  mkBuilder
    ([AuthFilter request; UriFilter request; GroupFilter; UserFilter]
       ++ map (fun factory => factory request) (registry_filters request))
    ([AnyMatcher; TagsMatcher]
       ++ map (fun factory => factory request) (registry_matchers request))
    [].
Proof.
  unfold default_querybuilder.
  rewrite foldl_append_matcher, foldl_append_filter. reflexivity.
Qed.

Lemma setup_snoc self calls c :
  setup self (calls ++ [c]) = apply_setup_call (setup self calls) c.
Proof. unfold setup. by rewrite foldl_app. Qed.

(** X2. However a freshly constructed [Search] is configured, its two
    builders stay in step: they hold the same filters and the same
    matchers, namely the default ones followed by the appended ones in
    call order; the aggregations go to the annotation builder only. *)
Theorem setup_keeps_builders_in_step (request : Request) (sep : bool)
    (calls : list setup_call) :
  let self := setup (Search_init request sep) calls in
  filters (builder self) =
    filters (default_querybuilder request) ++ filters_of calls ∧
  matchers (builder self) =
    matchers (default_querybuilder request) ++ matchers_of calls ∧
  builder_aggregations (builder self) = aggregations_of calls ∧
  filters (reply_builder self) = filters (builder self) ∧
  matchers (reply_builder self) = matchers (builder self) ∧
  builder_aggregations (reply_builder self) = [] ∧
  separate_replies self = sep.
Proof.
  induction calls as [|c calls IH] using rev_ind; intros self.
  - subst self. unfold setup, Search_init. simpl.
    rewrite !app_nil_r. rewrite default_querybuilder_components. done.
  - subst self. rewrite setup_snoc.
    destruct IH as (Hf & Hm & Ha & Hrf & Hrm & Hra & Hsep).
    unfold filters_of, matchers_of, aggregations_of in *.
    rewrite !omap_app. simpl.
    destruct c as [f|m|a]; simpl;
      rewrite ?Hrf, ?Hrm, ?Hra, ?Hf, ?Hm, ?Ha, ?app_nil_r, <-?app_assoc; done.
Qed.

(** X3. A [Search] that does not separate replies is not changed by
    [run]: the reply list is empty, the backend is called once, with the
    annotation search, and nothing is logged. *)
Theorem run_without_replies self params w :
  separate_replies self = false ->
  let result := (run self params w).1.1 in
  let self' := (run self params w).1.2 in
  let w' := (run self params w).2 in
  self' = self ∧
  reply_ids result = [] ∧
  es_calls w' = es_calls w ++ [annotation_call self params] ∧
  log w' = log w.
Proof.
  intros Hsep result self' w'. subst result self' w'.
  by rewrite (run_together self params w Hsep).
Qed.

Lemma run_request self params w :
  request (run self params w).1.2 = request self.
Proof.
  destruct (separate_replies self) eqn:Hsep.
  - rewrite (run_separate self params w Hsep). simpl.
    unfold append_top_level_filter. by rewrite Hsep.
  - by rewrite (run_together self params w Hsep).
Qed.

Lemma run_reply_builder self params w :
  reply_builder (run self params w).1.2 =
  if separate_replies self
  then Builder_append_matcher (reply_builder self)
         (RepliesMatcher (annotation_ids (run self params w).1.1))
  else reply_builder self.
Proof.
  destruct (separate_replies self) eqn:Hsep.
  - rewrite (run_separate self params w Hsep). simpl.
    unfold append_top_level_filter. by rewrite Hsep.
  - by rewrite (run_together self params w Hsep).
Qed.

Lemma run_all_reply_matchers self paramss w :
  length (matchers (reply_builder (run_all self paramss w).1)) =
  (length (matchers (reply_builder self))
   + (if separate_replies self then length paramss else 0))%nat ∧
  filters (reply_builder (run_all self paramss w).1) = filters (reply_builder self).
Proof.
  revert self w. induction paramss as [|params paramss IH]; intros self w.
  - simpl. destruct (separate_replies self); simpl; split; (lia || done).
  - rewrite run_all_cons. destruct (IH (run self params w).1.2 (run self params w).2)
      as [Hlen Hfil].
    rewrite Hlen, Hfil, run_separate_replies, run_reply_builder.
    destruct (separate_replies self); simpl; [|split; (lia || done)].
    rewrite length_app. simpl. split; (lia || done).
Qed.

(** X4. A [Search] that separates replies appends one [RepliesMatcher],
    over the annotation ids just found, to its reply builder in every
    call of [run] and never removes one: after n calls the reply builder
    has n more matchers, so each reply search is also constrained by the
    matchers of the earlier calls.  The filters of the reply builder are
    not touched by [run]. *)
Theorem replies_matcher_appended_by_every_run self paramss params w :
  matchers (reply_builder (run self params w).1.2) =
    matchers (reply_builder self) ++
      (if separate_replies self
       then [RepliesMatcher (annotation_ids (run self params w).1.1)] else []) ∧
  length (matchers (reply_builder (run_all self paramss w).1)) =
    (length (matchers (reply_builder self))
     + (if separate_replies self then length paramss else 0))%nat ∧
  filters (reply_builder (run_all self paramss w).1) = filters (reply_builder self).
Proof.
  split; [|apply run_all_reply_matchers].
  rewrite run_reply_builder. destruct (separate_replies self); simpl; [done|].
  by rewrite app_nil_r.
Qed.

Lemma run_all_request self paramss w :
  request (run_all self paramss w).1 = request self ∧
  separate_replies (run_all self paramss w).1 = separate_replies self.
Proof.
  revert self w. induction paramss as [|params paramss IH]; intros self w; [done|].
  rewrite run_all_cons.
  destruct (IH (run self params w).1.2 (run self params w).2) as [-> ->].
  by rewrite run_request, run_separate_replies.
Qed.

(** The backend calls of one [run]. *)
Lemma run_calls self params w :
  ∃ new, es_calls (run self params w).2 = es_calls w ++ new ∧
         length new = (if separate_replies self then 2 else 1)%nat ∧
         Forall (fun c => call_source c = false ∧
                          call_index c = es_index (request self) ∧
                          call_doc_type c = es_t_annotation (request self)) new.
Proof.
  destruct (separate_replies self) eqn:Hsep.
  - rewrite (run_separate self params w Hsep). simpl. eexists. split; [done|].
    split; [done|]. repeat constructor; simpl;
      unfold append_top_level_filter; by rewrite Hsep.
  - rewrite (run_together self params w Hsep). simpl. eexists. split; [done|].
    split; [done|]. by repeat constructor.
Qed.

(** X5. Whatever the parameters, the calls [run] makes to the backend are
    on the index and document type of the request and never ask for the
    source documents; n calls of [run] make n backend calls, or 2n when
    replies are separated. *)
Theorem backend_calls_of_runs self paramss w :
  ∃ new,
    es_calls (run_all self paramss w).2 = es_calls w ++ new ∧
    length new =
      ((if separate_replies self then 2 else 1) * length paramss)%nat ∧
    Forall (fun c => call_source c = false ∧
                     call_index c = es_index (request self) ∧
                     call_doc_type c = es_t_annotation (request self)) new.
Proof.
  revert self w. induction paramss as [|params paramss IH]; intros self w.
  - exists []. simpl. rewrite app_nil_r. split; [done|]. split; [lia|done].
  - rewrite run_all_cons.
    destruct (IH (run self params w).1.2 (run self params w).2)
      as (new2 & Hcalls2 & Hlen2 & Hall2).
    destruct (run_calls self params w) as (new1 & Hcalls1 & Hlen1 & Hall1).
    rewrite run_request, run_separate_replies in *.
    exists (new1 ++ new2). split_and!.
    + by rewrite Hcalls2, Hcalls1, <-app_assoc.
    + rewrite length_app, Hlen1, Hlen2. simpl. lia.
    + by apply Forall_app.
Qed.

Lemma record_scores_app (hits1 hits2 : list Hit) (m : gmap string Score) :
  record_scores (hits1 ++ hits2) m = record_scores hits2 (record_scores hits1 m).
Proof. unfold record_scores. by rewrite foldl_app. Qed.

Lemma run_score_map self params w :
  deref (run self params w).2 (annotation_ids_map (run self params w).1.1) =
  record_scores (hits_hits (annotation_response self params (es_conn w)).1)
                (module_annotation_ids_map w).
Proof.
  destruct (separate_replies self) eqn:Hsep.
  - by rewrite (run_separate self params w Hsep).
  - by rewrite (run_together self params w Hsep).
Qed.

(** X6. The score map returned by [run] has an entry for every hit of the
    annotation search; when an id occurs in several hits, the score of the
    last of them is the one kept, whatever the map held for the id
    before. *)
Theorem last_hit_score_recorded self params w (before after : list Hit) (h : Hit) :
  hits_hits (annotation_response self params (es_conn w)).1 = before ++ h :: after ->
  _id h ∉ map _id after ->
  let result := (run self params w).1.1 in
  let w' := (run self params w).2 in
  _id h ∈ annotation_ids result ∧
  deref w' (annotation_ids_map result) !! _id h = Some (_score h).
Proof.
  intros Hhits Hlast result w'. subst result w'. split.
  - destruct (separate_replies self) eqn:Hsep.
    + rewrite (run_separate self params w Hsep). simpl. rewrite Hhits.
      rewrite map_app. apply elem_of_app. right. by left.
    + rewrite (run_together self params w Hsep). simpl. rewrite Hhits.
      rewrite map_app. apply elem_of_app. right. by left.
  - rewrite run_score_map, Hhits.
    rewrite record_scores_app. change (h :: after) with ([h] ++ after).
    rewrite record_scores_app, record_scores_notin by done.
    unfold record_scores at 1. simpl. apply lookup_insert_eq.
Qed.

Lemma record_scores_dom (hits : list Hit) (m : gmap string Score) :
  dom (record_scores hits m) = dom m ∪ list_to_set (map _id hits).
Proof.
  revert m. induction hits as [|h hits IH]; intros m.
  - unfold record_scores. simpl. by rewrite union_empty_r_L.
  - change (record_scores (h :: hits) m)
      with (record_scores hits (<[_id h := _score h]> m)).
    rewrite IH, dom_insert_L. simpl.
    by rewrite (assoc_L (∪)), (comm_L (∪) (dom m)).
Qed.

(** X7. The module-level score map is never emptied and no entry is ever
    removed from it: after any number of calls of [run] it has every key
    it had before, and a call that finds no hit leaves it as it was. *)
Theorem score_map_only_grows self paramss params w :
  dom (module_annotation_ids_map w) ⊆
    dom (module_annotation_ids_map (run_all self paramss w).2) ∧
  dom (module_annotation_ids_map (run self params w).2) =
    dom (module_annotation_ids_map w) ∪
      list_to_set (annotation_ids (run self params w).1.1) ∧
  (annotation_ids (run self params w).1.1 = [] ->
   module_annotation_ids_map (run self params w).2 = module_annotation_ids_map w).
Proof.
  assert (Hone : ∀ self params w,
            module_annotation_ids_map (run self params w).2 =
              record_scores (hits_hits (annotation_response self params (es_conn w)).1)
                            (module_annotation_ids_map w) ∧
            annotation_ids (run self params w).1.1 =
              map _id (hits_hits (annotation_response self params (es_conn w)).1)).
  { intros self0 params0 w0. destruct (separate_replies self0) eqn:Hsep.
    - by rewrite (run_separate self0 params0 w0 Hsep).
    - by rewrite (run_together self0 params0 w0 Hsep). }
  split_and!.
  - revert self w. induction paramss as [|p paramss IH]; intros self w; [done|].
    rewrite run_all_cons. etrans; [|apply IH].
    destruct (Hone self p w) as [-> _]. rewrite record_scores_dom.
    apply union_subseteq_l.
  - destruct (Hone self params w) as [-> ->]. apply record_scores_dom.
  - destruct (Hone self params w) as [-> ->]. intros Hnil.
    apply map_eq_nil in Hnil. by rewrite Hnil.
Qed.

End Facts.

Lemma run_without_replies_witness :
  let C := SearchScenario.stub_collaborators SearchScenario.scenario_script in
  let self := Search_init (D := SearchScenario.stub_domain) () false in
  let result := (run self ∅ SearchScenario.fresh_world).1.1 in
  let w' := (run self ∅ SearchScenario.fresh_world).2 in
  (run self ∅ SearchScenario.fresh_world).1.2 = self ∧
  annotation_ids result = ["a1"; "a2"; "a3"] ∧
  reply_ids result = [] ∧
  es_calls w' = [SearchScenario.stub_call 4 2 ∅] ∧
  log w' = [].
Proof.
  intros C self result w'.
  destruct (run_without_replies (C := C) self ∅ SearchScenario.fresh_world eq_refl)
    as (H1 & H2 & H3 & H4).
  split; [exact H1|]. split; [reflexivity|]. split; [exact H2|].
  split; [exact H3|exact H4].
Defined.

Lemma last_hit_score_recorded_witness :
  let C := SearchScenario.stub_collaborators [MoreScenarios.repeated_id_answer] in
  let self := Search_init (D := SearchScenario.stub_domain) () false in
  let result := (run self ∅ SearchScenario.fresh_world).1.1 in
  let w' := (run self ∅ SearchScenario.fresh_world).2 in
  annotation_ids result = ["a1"; "a1"] ∧
  deref w' (annotation_ids_map result) !! "a1" = Some 5.
Proof.
  intros C self result w'.
  assert (Hlast : "a1" ∉ @nil string) by apply not_elem_of_nil.
  destruct (last_hit_score_recorded (C := C) self ∅ SearchScenario.fresh_world
              [MoreScenarios.first_hit] [] MoreScenarios.last_hit eq_refl Hlast)
    as (_ & H).
  split; [reflexivity|exact H].
Defined.

End SearchCoreExtra.

(** ** Further properties of the user service *)

Module AccountsExtra.
Import Accounts AccountsSpec.

Section Facts.

Context `{UM : UserModel}.

Implicit Types (self : UserService) (userid : string) (e : event).

(** One event that is no boundary: the cache gains the userid queried, if
    any, and a userid is queried only when the cache did not have it. *)
Lemma step_cache_and_queries self e :
  boundary e = false ->
  ∃ issued,
    queries (step self e) = queries self ++ issued ∧
    dom (_cache (step self e)) = dom (_cache self) ∪ list_to_set issued ∧
    NoDup issued ∧
    ∀ userid, userid ∈ issued -> userid ∉ dom (_cache self).
Proof.
  intros Hb.
  assert (Hnone : ∀ self',
            queries self' = queries self -> _cache self' = _cache self ->
            ∃ issued,
              queries self' = queries self ++ issued ∧
              dom (_cache self') = dom (_cache self) ∪ list_to_set issued ∧
              NoDup issued ∧
              ∀ userid, userid ∈ issued -> userid ∉ dom (_cache self)).
  { intros self' Hq Hc. exists []. rewrite Hq, Hc, app_nil_r. split_and!.
    - done.
    - rewrite list_to_set_nil. by rewrite (right_id_L ∅ (∪)).
    - constructor.
    - intros u Hu. by apply elem_of_nil in Hu. }
  destruct e as [userid| db | db | db]; try done.
  - unfold step. destruct (_cache self !! userid) as [r|] eqn:Hr.
    + rewrite (fetch_hit _ _ _ Hr). by apply Hnone.
    + rewrite (fetch_miss _ _ Hr). exists [userid]. simpl. split_and!.
      * done.
      * rewrite dom_insert_L, (right_id_L ∅ (∪)). apply (comm_L (∪)).
      * apply NoDup_singleton.
      * intros u Hu. apply list_elem_of_singleton in Hu as ->.
        by apply not_elem_of_dom.
  - by apply Hnone.
Qed.

(** X8. Between two transaction boundaries the service never asks the
    session twice for the same userid, whatever is fetched and however
    the database changes: starting with an empty cache, the queries
    issued are pairwise different and the cache holds exactly the userids
    that were queried. *)
Theorem no_userid_is_queried_twice self (events : list event) :
  _cache self = ∅ ->
  forallb (fun e => negb (boundary e)) events = true ->
  ∃ issued,
    queries (foldl step self events) = queries self ++ issued ∧
    NoDup issued ∧
    dom (_cache (foldl step self events)) = list_to_set issued.
Proof.
  intros Hempty Hall.
  assert (Hgen : ∀ self,
            ∃ issued,
              queries (foldl step self events) = queries self ++ issued ∧
              NoDup issued ∧
              (∀ userid, userid ∈ issued -> userid ∉ dom (_cache self)) ∧
              dom (_cache (foldl step self events)) =
                dom (_cache self) ∪ list_to_set issued).
  { clear self Hempty. induction events as [|e events IH]; intros self; simpl.
    - exists []. rewrite app_nil_r. split_and!.
      + done.
      + constructor.
      + intros u Hu. by apply elem_of_nil in Hu.
      + rewrite list_to_set_nil. by rewrite (right_id_L ∅ (∪)).
    - simpl in Hall. apply andb_prop in Hall as [Hb Hall].
      apply negb_true_iff in Hb.
      destruct (step_cache_and_queries self e Hb) as (i1 & Hq1 & Hd1 & Hn1 & Hf1).
      destruct (IH Hall (step self e)) as (i2 & Hq2 & Hn2 & Hf2 & Hd2).
      exists (i1 ++ i2). split_and!.
      + by rewrite Hq2, Hq1, <-app_assoc.
      + apply NoDup_app. split_and!; try done.
        intros u Hu1 Hu2. apply (Hf2 u Hu2). rewrite Hd1.
        apply elem_of_union_r. by apply elem_of_list_to_set.
      + intros u [Hu|Hu]%elem_of_app; [by apply Hf1|].
        intros Hin. apply (Hf2 u Hu). rewrite Hd1. by apply elem_of_union_l.
      + rewrite Hd2, Hd1, list_to_set_app_L. by rewrite (assoc_L (∪)). }
  destruct (Hgen self) as (issued & Hq & Hn & _ & Hd).
  exists issued. split_and!; try done.
  by rewrite Hd, Hempty, dom_empty_L, (left_id_L ∅ (∪)).
Qed.

End Facts.

Lemma no_userid_is_queried_twice_witness :
  let events := [Fetch AccountsScenario.foo; Fetch AccountsScenario.bar;
                 Write AccountsScenario.foo_is_2; Fetch AccountsScenario.foo;
                 Fetch AccountsScenario.bar] in
  queries (foldl step AccountsScenario.service events) =
    [AccountsScenario.foo; AccountsScenario.bar] ∧
  NoDup [AccountsScenario.foo; AccountsScenario.bar].
Proof.
  intros events.
  destruct (no_userid_is_queried_twice AccountsScenario.service events eq_refl eq_refl)
    as (issued & Hq & Hn & _).
  assert (Hissued : issued = [AccountsScenario.foo; AccountsScenario.bar]).
  { change (queries (foldl step AccountsScenario.service events))
      with ([] ++ [AccountsScenario.foo; AccountsScenario.bar]) in Hq.
    by apply app_inv_head in Hq. }
  split; [reflexivity|]. by rewrite <-Hissued.
Defined.

End AccountsExtra.

(** ** Properties of the authentication set-up *)

Module AuthSpec.
Import Auth.

Lemma include_all_snoc (configs : list Configurator) (config : Configurator) g :
  include_all (configs ++ [config]) g = (includeme config (include_all configs g)).2.
Proof. unfold include_all. by rewrite foldl_app. Qed.

(** The globals after any number of [includeme] calls, starting from the
    import-time values. *)
Lemma include_all_globals (configs : list Configurator) :
  let fallback := if existsb proxy_auth configs then PROXY_POLICY else SESSION_POLICY in
  DEFAULT_POLICY (include_all configs globals_at_import) =
    AuthenticationPolicy TOKEN_POLICY fallback ∧
  WEBSOCKET_POLICY (include_all configs globals_at_import) =
    MultiAuthenticationPolicy [TOKEN_POLICY; fallback] ∧
  log (include_all configs globals_at_import) =
    replicate (length (List.filter proxy_auth configs)) proxy_warning.
Proof.
  induction configs as [|config configs IH] using rev_ind; [done|].
  rewrite include_all_snoc, existsb_app, List.filter_app, length_app. simpl.
  destruct IH as (Hd & Hw & Hl).
  unfold includeme. destruct (proxy_auth config); simpl.
  - rewrite orb_true_r, Hl. split_and!; try done.
    by rewrite replicate_add.
  - rewrite orb_false_r, Nat.add_0_r. done.
Qed.

(** X9. Proxy authentication, once enabled, is never left: the policy
    [includeme] installs has the token policy as its API policy in every
    case, and as its fallback the proxy policy as soon as this
    configuration or any configuration included before it has a true
    [h.proxy_auth], the session policy otherwise.  The warning is logged
    once for every configuration that enables proxy authentication.  The
    two request methods are added after the ones the configuration had. *)
Theorem includeme_policy (earlier : list Configurator) (config : Configurator) :
  let g := include_all earlier globals_at_import in
  let fallback :=
    if existsb proxy_auth (earlier ++ [config]) then PROXY_POLICY else SESSION_POLICY in
  authentication_policy (includeme config g).1 =
    Some (AuthenticationPolicy TOKEN_POLICY fallback) ∧
  WEBSOCKET_POLICY (includeme config g).2 =
    MultiAuthenticationPolicy [TOKEN_POLICY; fallback] ∧
  log (includeme config g).2 =
    log g ++ (if proxy_auth config then [proxy_warning] else []) ∧
  request_methods (includeme config g).1 =
    request_methods config ++
      [mkRequestMethod (Function "auth_domain") (Some "auth_domain") true;
       mkRequestMethod (DottedName ".tokens.auth_token") None true] ∧
  settings (includeme config g).1 = settings config.
Proof.
  intros g fallback.
  destruct (include_all_globals (earlier ++ [config])) as (Hd & Hw & _).
  rewrite include_all_snoc in Hd, Hw. fold g in Hd, Hw. fold fallback in Hd, Hw.
  split_and!.
  - rewrite <-Hd. reflexivity.
  - exact Hw.
  - unfold includeme. destruct (proxy_auth config); simpl; [done|].
    by rewrite app_nil_r.
  - unfold includeme. simpl. by rewrite <-app_assoc.
  - reflexivity.
Qed.

(** A configuration without [h.proxy_auth], included after one that has
    it, gets the proxy fallback. *)
Example includeme_after_proxy :
  let with_proxy := mkConfigurator {[ "h.proxy_auth" := SBool true ]} None [] in
  let plain := mkConfigurator ∅ None [] in
  authentication_policy
    (includeme plain (includeme with_proxy globals_at_import).2).1 =
  Some (AuthenticationPolicy TOKEN_POLICY PROXY_POLICY).
Proof. reflexivity. Qed.

End AuthSpec.

(** ** Further properties of the document store *)

Module DocumentStoreExtra.
Import DocumentStore DocumentCalls DocumentStoreSpec.

Implicit Types (s : Session).

Lemma flush_or_retryable_rest {A} (a : A) s :
  next_document (flush_or_retryable a s).2 = next_document s ∧
  warnings (flush_or_retryable a s).2 = warnings s ∧
  flush_raises (flush_or_retryable a s).2 = flush_raises s.
Proof.
  unfold flush_or_retryable, flush. by destruct (flush_raises s (flushes s)).
Qed.

(** What [create_or_update_document_uri] leaves besides the DocumentURI
    table. *)
Lemma upsert_uri_state claimant_ uri_ type_ content_type_ document_ created_ updated_ s :
  let s' := (create_or_update_document_uri claimant_ uri_ type_ content_type_
               document_ created_ updated_ s).2 in
  documents s' =
    match documents s !! document_ with
    | Some d => if unset (web_uri d) && is_http uri_
                then <[document_ := set_web_uri d uri_]> (documents s)
                else documents s
    | None => documents s
    end ∧
  document_meta s' = document_meta s ∧
  next_document s' = next_document s ∧
  warnings s' =
    warnings s ++
      match list_find (fun row => uri_key row =
                         (claimant_, uri_, or_empty type_, or_empty content_type_))
                      (document_uris s) with
      | Some (_, docuri) =>
          if bool_decide (document docuri ≠ document_)
          then [DocumentMismatch (document docuri) document_] else []
      | None => []
      end.
Proof.
  intros s'. subst s'. unfold create_or_update_document_uri. cbv zeta.
  match goal with
  | |- context [flush_or_retryable () ?s0] =>
      destruct (flush_or_retryable_tables () s0) as (Hd & _ & Hm & _);
      destruct (flush_or_retryable_rest () s0) as (Hn & Hw & _)
  end.
  rewrite Hd, Hm, Hn, Hw. clear Hd Hm Hn Hw.
  destruct (list_find _ (document_uris s)) as [[i docuri]|]; simpl.
  - case_bool_decide; simpl;
      (destruct (documents s !! document_) as [d|]; simpl;
       [destruct (unset (web_uri d) && is_http uri_); simpl|]);
      by rewrite ?app_nil_r.
  - destruct (documents s !! document_) as [d|]; simpl;
      [destruct (unset (web_uri d) && is_http uri_); simpl|];
      by rewrite ?app_nil_r.
Qed.

(** The same for [create_or_update_document_meta]. *)
Lemma upsert_meta_state claimant_ type_ value_ document_ created_ updated_ s :
  let s' := (create_or_update_document_meta claimant_ type_ value_ document_
               created_ updated_ s).2 in
  documents s' =
    match documents s !! document_ with
    | Some d => if bool_decide (type_ = "title") && unset (title d)
                then <[document_ := set_title d (fst value_)]> (documents s)
                else documents s
    | None => documents s
    end ∧
  document_uris s' = document_uris s ∧
  next_document s' = next_document s ∧
  document_meta s' =
    match list_find (fun row => meta_claimant row = claimant_ ∧ meta_type row = type_)
                    (document_meta s) with
    | Some (i, existing) =>
        <[i := meta_set_value existing value_ updated_]> (document_meta s)
    | None =>
        document_meta s ++
          [mkDocumentMeta claimant_ type_ value_ document_ created_ updated_]
    end ∧
  warnings s' =
    warnings s ++
      match list_find (fun row => meta_claimant row = claimant_ ∧ meta_type row = type_)
                      (document_meta s) with
      | Some (_, existing) =>
          if bool_decide (meta_document existing ≠ document_)
          then [DocumentMismatch (meta_document existing) document_] else []
      | None => []
      end.
Proof.
  intros s'. subst s'. unfold create_or_update_document_meta. cbv zeta.
  match goal with
  | |- context [flush_or_retryable () ?s0] =>
      destruct (flush_or_retryable_tables () s0) as (Hd & Hu & Hm & _);
      destruct (flush_or_retryable_rest () s0) as (Hn & Hw & _)
  end.
  rewrite Hd, Hu, Hm, Hn, Hw. clear Hd Hu Hm Hn Hw.
  destruct (list_find _ (document_meta s)) as [[i existing]|]; simpl.
  - case_bool_decide; simpl;
      (destruct (documents s !! document_) as [d|]; simpl;
       [destruct (bool_decide (type_ = "title") && unset (title d)); simpl|]);
      by rewrite ?app_nil_r.
  - destruct (documents s !! document_) as [d|]; simpl;
      [destruct (bool_decide (type_ = "title") && unset (title d)); simpl|];
      by rewrite ?app_nil_r.
Qed.

(** X10. Denormalization, first claim wins: an upsert of a DocumentURI
    sets the [web_uri] of the given Document to the URI when the Document
    has none (null or empty) and the URI is an http or https one, and
    leaves it as it is otherwise; an upsert of a DocumentMeta does the
    same for [title] with the first element of the value of a [title]
    claim.  Neither touches the other field. *)
Theorem denormalized_on_first_claim s (d : nat) (doc : Document) :
  documents s !! d = Some doc ->
  (∀ claimant_ uri_ type_ content_type_ created_ updated_,
     let s' := (create_or_update_document_uri claimant_ uri_ type_ content_type_
                  d created_ updated_ s).2 in
     ∃ doc', documents s' !! d = Some doc' ∧
       web_uri doc' = (if unset (web_uri doc) && is_http uri_
                       then Some uri_ else web_uri doc) ∧
       title doc' = title doc) ∧
  (∀ claimant_ type_ value_ created_ updated_,
     let s' := (create_or_update_document_meta claimant_ type_ value_
                  d created_ updated_ s).2 in
     ∃ doc', documents s' !! d = Some doc' ∧
       title doc' = (if bool_decide (type_ = "title") && unset (title doc)
                     then Some (fst value_) else title doc) ∧
       web_uri doc' = web_uri doc).
Proof.
  intros Hdoc. split.
  - intros claimant_ uri_ type_ content_type_ created_ updated_ s'.
    destruct (upsert_uri_state claimant_ uri_ type_ content_type_ d created_ updated_ s)
      as (Hd & _). fold s' in Hd. rewrite Hd, Hdoc.
    destruct (unset (web_uri doc) && is_http uri_).
    + eexists. rewrite lookup_insert_eq. done.
    + by exists doc.
  - intros claimant_ type_ value_ created_ updated_ s'.
    destruct (upsert_meta_state claimant_ type_ value_ d created_ updated_ s)
      as (Hd & _). fold s' in Hd. rewrite Hd, Hdoc.
    destruct (bool_decide (type_ = "title") && unset (title doc)).
    + eexists. rewrite lookup_insert_eq. done.
    + by exists doc.
Qed.

(** X11. Upserting a DocumentMeta whose (claimant, type) is already in
    the table adds no row: the row found gets the new [value] and
    [updated] and keeps its [created] and its [document], whatever
    Document and [created] the caller passed. *)
Theorem meta_upsert_overwrites_value_only (claimant_ type_ : string)
    (value_ : string * list string) (document_ : nat)
    (created_ updated_ : option datetime) s (i : nat) (existing : DocumentMeta) :
  list_find (fun row => meta_claimant row = claimant_ ∧ meta_type row = type_)
            (document_meta s) = Some (i, existing) ->
  let s' := (create_or_update_document_meta claimant_ type_ value_ document_
               created_ updated_ s).2 in
  length (document_meta s') = length (document_meta s) ∧
  (∀ j, j ≠ i -> document_meta s' !! j = document_meta s !! j) ∧
  ∃ row', document_meta s' !! i = Some row' ∧
    value row' = value_ ∧ meta_updated row' = updated_ ∧
    meta_created row' = meta_created existing ∧
    meta_document row' = meta_document existing ∧
    meta_claimant row' = claimant_ ∧ meta_type row' = type_.
Proof.
  intros Hfind s'.
  destruct (upsert_meta_state claimant_ type_ value_ document_ created_ updated_ s)
    as (_ & _ & _ & Hm & _). fold s' in Hm. rewrite Hm, Hfind.
  apply list_find_Some in Hfind as (Hi & [Hc Ht] & _).
  split_and!.
  - by rewrite length_insert.
  - intros j Hj. by rewrite list_lookup_insert_ne.
  - eexists. split.
    + apply list_lookup_insert_eq. by eapply lookup_lt_Some.
    + done.
Qed.

(** X12. A claim found under another Document is reported, not moved: an
    upsert logs one mismatch warning exactly when the row it finds is
    owned by a Document other than the one given, and in every case the
    row it finds keeps its owner. *)
Theorem mismatch_is_warned_not_repaired (claimant_ uri_ : string)
    (type_ content_type_ : option string) (document_ : nat)
    (created_ updated_ : option datetime) s (i : nat) (existing : DocumentURI) :
  list_find (fun row => uri_key row =
               (claimant_, uri_, or_empty type_, or_empty content_type_))
            (document_uris s) = Some (i, existing) ->
  let s' := (create_or_update_document_uri claimant_ uri_ type_ content_type_
               document_ created_ updated_ s).2 in
  warnings s' =
    warnings s ++ (if bool_decide (document existing = document_) then []
                   else [DocumentMismatch (document existing) document_]) ∧
  document <$> document_uris s' !! i = Some (document existing) ∧
  map document (document_uris s') = map document (document_uris s).
Proof.
  intros Hfind s'.
  destruct (upsert_uri_state claimant_ uri_ type_ content_type_ document_
              created_ updated_ s) as (_ & _ & _ & Hw).
  fold s' in Hw. rewrite Hw, Hfind.
  assert (Hrows : document_uris s' =
                  <[i := set_updated existing updated_]> (document_uris s)).
  { subst s'. by rewrite create_or_update_document_uri_rows, Hfind. }
  apply list_find_Some in Hfind as (Hi & _).
  split_and!.
  - by repeat case_bool_decide.
  - rewrite Hrows, list_lookup_insert_eq by (by eapply lookup_lt_Some). done.
  - rewrite Hrows.
    change (map document ?l) with (document <$> l).
    rewrite list_fmap_insert. simpl. apply list_insert_id.
    by rewrite list_lookup_fmap, Hi.
Qed.

(** *** Finding or creating *)

Lemma filter_none {A} (P : A -> Prop) `{∀ x, Decision (P x)} (l : list A) :
  (∀ x, x ∈ l -> ¬ P x) -> filter P l = [].
Proof.
  intros Hnone. destruct (filter P l) as [|x xs] eqn:Hf; [done|].
  assert (Hx : x ∈ filter P l) by (rewrite Hf; by left).
  apply list_elem_of_filter in Hx as [HP Hin]. by destruct (Hnone x Hin).
Qed.

(** The session [find_or_create_by_uris] leaves: either nothing matched
    and one Document and one DocumentURI were added, or something matched
    and the tables are as before. *)
Lemma find_or_create_state target_uri other_uris created_ updated_ s :
  let s' := (find_or_create_by_uris target_uri other_uris created_ updated_ s).2 in
  document_meta s' = document_meta s ∧
  ((find_by_uris s (target_uri :: other_uris) = [] ∧
    documents s' =
      <[next_document s := mkDocument None None created_ updated_]> (documents s) ∧
    document_uris s' =
      document_uris s ++
        [mkDocumentURI target_uri target_uri "self-claim" ""
                       (next_document s) created_ updated_] ∧
    next_document s' = S (next_document s))
   ∨
   (find_by_uris s (target_uri :: other_uris) ≠ [] ∧
    documents s' = documents s ∧
    document_uris s' = document_uris s ∧
    next_document s' = next_document s)).
Proof.
  intros s'. subst s'. unfold find_or_create_by_uris. cbv zeta.
  match goal with
  | |- context [flush_or_retryable ?a ?s0] =>
      destruct (flush_or_retryable_tables a s0) as (Hd & Hu & Hm & _);
      destruct (flush_or_retryable_rest a s0) as (Hn & _)
  end.
  rewrite Hd, Hu, Hm, Hn. clear Hd Hu Hm Hn.
  destruct (find_by_uris s (target_uri :: other_uris)) as [|d ds]; simpl.
  - split; [done|]. by left.
  - split; [done|]. by right.
Qed.

Lemma elem_of_find_by_uris s (uris : list string) (d : nat) :
  d ∈ find_by_uris s uris <->
  is_Some (documents s !! d) ∧
  ∃ row, row ∈ document_uris s ∧ document row = d ∧ uri row ∈ uris.
Proof.
  unfold find_by_uris. rewrite list_elem_of_filter, Exists_exists.
  rewrite list_elem_of_fmap. split.
  - intros [(row & Hrow & Hd & Hu) ([d' doc] & -> & Hin)].
    apply elem_of_map_to_list in Hin. simpl in *. split; [eauto|].
    exists row. done.
  - intros [[doc Hdoc] (row & Hrow & Hd & Hu)]. split.
    + exists row. done.
    + exists (d, doc). split; [done|]. by apply elem_of_map_to_list.
Qed.

(** X13. When no Document matches the target URI or one of the other
    URIs, [find_or_create_by_uris] creates exactly one Document and
    exactly one DocumentURI, a [self-claim] by which the target URI claims
    itself, and returns that Document alone; nothing else in the store
    changes. *)
Theorem find_or_create_creates_one (target_uri : string) (other_uris : list string)
    (created_ updated_ : option datetime) s :
  find_by_uris s (target_uri :: other_uris) = [] ->
  documents s !! next_document s = None ->
  flush_raises s (flushes s) = false ->
  let out := find_or_create_by_uris target_uri other_uris created_ updated_ s in
  out.1 = Ok [next_document s] ∧
  documents out.2 =
    <[next_document s := mkDocument None None created_ updated_]> (documents s) ∧
  document_uris out.2 =
    document_uris s ++
      [mkDocumentURI target_uri target_uri "self-claim" ""
                     (next_document s) created_ updated_] ∧
  document_meta out.2 = document_meta s.
Proof.
  intros Hnone Hfresh Hflush out.
  destruct (find_or_create_state target_uri other_uris created_ updated_ s)
    as (Hmeta & [(_ & Hd & Hu & _)|(Hsome & _)]); [|done].
  fold out in Hmeta, Hd, Hu. split_and!; try done.
  subst out. unfold find_or_create_by_uris. cbv zeta. rewrite Hnone.
  set (s1 := mkSession _ _ _ _ _ _ _).
  rewrite flush_or_retryable_ok by done. f_equal.
  apply Permutation_singleton_r.
  unfold find_by_uris. simpl.
  rewrite (map_to_list_insert _ _ _ Hfresh). simpl.
  rewrite filter_cons, decide_True.
  2:{ apply Exists_app. right. constructor. simpl. split; [done|]. by left. }
  constructor.
  match goal with |- filter ?P ?l ≡ₚ [] => assert (Hnil : filter P l = []) end.
  { apply filter_none.
    intros d Hdin Hex. apply list_elem_of_fmap in Hdin as ([d' doc] & -> & Hin).
    apply elem_of_map_to_list in Hin. simpl in *.
    apply Exists_app in Hex as [Hex|Hex].
    - assert (Hin' : d' ∈ find_by_uris s (target_uri :: other_uris)).
      { apply elem_of_find_by_uris. split; [eauto|].
        apply Exists_exists in Hex as (row & ? & ? & ?). eauto. }
      rewrite Hnone in Hin'. by apply elem_of_nil in Hin'.
    - apply Exists_cons in Hex as [[Heq _]|Hex]; [|by apply Exists_nil in Hex].
      simpl in Heq. subst d'. congruence. }
  by rewrite Hnil.
Qed.

(** X14. When some Document matches, [find_or_create_by_uris] creates
    nothing: the three tables are as before and the Documents found are
    returned.  The Documents found are those of the store that own a
    DocumentURI whose [uri] is the target URI or one of the other URIs,
    each listed once. *)
Theorem find_or_create_returns_matches (target_uri : string) (other_uris : list string)
    (created_ updated_ : option datetime) s :
  find_by_uris s (target_uri :: other_uris) ≠ [] ->
  flush_raises s (flushes s) = false ->
  let out := find_or_create_by_uris target_uri other_uris created_ updated_ s in
  out.1 = Ok (find_by_uris s (target_uri :: other_uris)) ∧
  documents out.2 = documents s ∧
  document_uris out.2 = document_uris s ∧
  document_meta out.2 = document_meta s ∧
  NoDup (find_by_uris s (target_uri :: other_uris)) ∧
  ∀ d, d ∈ find_by_uris s (target_uri :: other_uris) <->
       is_Some (documents s !! d) ∧
       ∃ row, row ∈ document_uris s ∧ document row = d ∧
              uri row ∈ target_uri :: other_uris.
Proof.
  intros Hsome Hflush out.
  destruct (find_or_create_state target_uri other_uris created_ updated_ s)
    as (Hmeta & [(Hnone & _)|(_ & Hd & Hu & _)]); [done|].
  fold out in Hmeta, Hd, Hu. split_and!; try done.
  - subst out. unfold find_or_create_by_uris. cbv zeta.
    destruct (find_by_uris s (target_uri :: other_uris)) eqn:Hfound; [done|].
    rewrite flush_or_retryable_ok by done. by rewrite Hfound.
  - unfold find_by_uris. apply NoDup_filter, NoDup_fst_map_to_list.
  - intros d. apply elem_of_find_by_uris.
Qed.

(** *** Invariants *)

(** One round of the merge loop, without assumptions on the master. *)
Lemma merge_step_keys (duplicate master : nat) s :
  map uri_key (document_uris (destroy duplicate (reassign duplicate master s)))
    `sublist_of` map uri_key (document_uris s).
Proof.
  unfold destroy, reassign. simpl.
  induction (document_uris s) as [|row rows IH]; [done|]. simpl.
  rewrite filter_cons.
  assert (Hkey : uri_key (if bool_decide (document row = duplicate)
                          then set_document row master else row) = uri_key row)
    by (by case_bool_decide).
  destruct (decide _); simpl.
  - rewrite Hkey. by apply sublist_skip.
  - by apply sublist_cons.
Qed.

Lemma merge_fold_state (master : nat) (duplicates : list nat) s :
  let s' := foldl (fun s doc => destroy doc (reassign doc master s)) s duplicates in
  (∀ d, documents s' !! d = if bool_decide (d ∈ duplicates) then None
                            else documents s !! d) ∧
  next_document s' = next_document s ∧
  map uri_key (document_uris s') `sublist_of` map uri_key (document_uris s).
Proof.
  revert s. induction duplicates as [|dup duplicates IH]; intros s; simpl.
  - done.
  - destruct (IH (destroy dup (reassign dup master s))) as (Hdocs & Hnext & Hkeys).
    split_and!.
    + intros d. rewrite Hdocs. simpl.
      destruct (decide (d = dup)) as [->|Hne].
      * rewrite lookup_delete_eq.
        rewrite (bool_decide_true (dup ∈ dup :: duplicates)) by (by left).
        by case_bool_decide.
      * rewrite lookup_delete_ne by done.
        rewrite (bool_decide_ext (d ∈ dup :: duplicates) (d ∈ duplicates)); [done|].
        rewrite elem_of_cons. split; [intros [?|?]; [congruence|done] | by right].
    + by rewrite Hnext.
    + etrans; [exact Hkeys|]. apply merge_step_keys.
Qed.

(** What [merge_documents] leaves, without assumptions on the list. *)
Lemma merge_state (document_list : list nat) (updated_ : option datetime) s :
  let s' := (merge_documents document_list updated_ s).2 in
  next_document s' = next_document s ∧
  map uri_key (document_uris s') `sublist_of` map uri_key (document_uris s) ∧
  ∀ d doc', documents s' !! d = Some doc' ->
    ∃ doc, documents s !! d = Some doc ∧
           web_uri doc' = web_uri doc ∧ title doc' = title doc.
Proof.
  intros s'. subst s'. unfold merge_documents.
  destruct document_list as [|master duplicates]; simpl.
  - split_and!; [done|done|]. intros d doc' Hd. by exists doc'.
  - destruct (merge_fold_state master duplicates s) as (Hdocs & Hnext & Hkeys).
    set (s1 := foldl _ s duplicates) in *.
    match goal with
    | |- context [flush_or_retryable ?a ?s0] =>
        destruct (flush_or_retryable_tables a s0) as (Hd & Hu & _);
        destruct (flush_or_retryable_rest a s0) as (Hn & _)
    end.
    rewrite Hd, Hu, Hn. clear Hd Hu Hn.
    destruct updated_ as [u|]; simpl; (split_and!; [done|done|]).
    + intros d doc'. destruct (decide (d = master)) as [->|Hne].
      * rewrite lookup_alter_eq, Hdocs.
        case_bool_decide; [done|].
        destruct (documents s !! master) as [doc|]; [|done].
        simpl. intros [= <-]. by exists doc.
      * rewrite lookup_alter_ne, Hdocs by done.
        case_bool_decide; [done|]. intros Hd. by exists doc'.
    + intros d doc'. rewrite Hdocs. case_bool_decide; [done|].
      intros Hd. by exists doc'.
Qed.

(** A denormalized field of [doc] that is set has the same value in
    [doc']. *)
Definition keeps_denormalized (doc doc' : Document) : Prop :=
  (unset (web_uri doc) = false -> web_uri doc' = web_uri doc) ∧
  (unset (title doc) = false -> title doc' = title doc).

Lemma keeps_denormalized_refl doc : keeps_denormalized doc doc.
Proof. done. Qed.

Lemma keeps_denormalized_trans doc1 doc2 doc3 :
  keeps_denormalized doc1 doc2 -> keeps_denormalized doc2 doc3 ->
  keeps_denormalized doc1 doc3.
Proof.
  intros [Hw12 Ht12] [Hw23 Ht23]. split.
  - intros Hset. rewrite <-(Hw12 Hset). apply Hw23. by rewrite (Hw12 Hset).
  - intros Hset. rewrite <-(Ht12 Hset). apply Ht23. by rewrite (Ht12 Hset).
Qed.

(** One call: identifiers are not handed out again, and a Document that
    is still there afterwards was there before, with its set fields. *)
Lemma call_store_document s (c : store_call) (d : nat) :
  (d < next_document s)%nat ->
  (next_document s ≤ next_document (call_store s c))%nat ∧
  ∀ doc', documents (call_store s c) !! d = Some doc' ->
    ∃ doc, documents s !! d = Some doc ∧ keeps_denormalized doc doc'.
Proof.
  intros Hlt. destruct c; simpl.
  - destruct (find_or_create_state target_uri other_uris created_ updated_ s)
      as (_ & [(_ & Hd & _ & Hn)|(_ & Hd & _ & Hn)]); rewrite Hd, Hn.
    + split; [lia|]. intros doc'. rewrite lookup_insert_ne by lia.
      intros Hdoc. exists doc'. split; [done|apply keeps_denormalized_refl].
    + split; [lia|]. intros doc' Hdoc. exists doc'.
      split; [done|apply keeps_denormalized_refl].
  - destruct (upsert_uri_state claimant_ uri_ type_ content_type_ document_
                created_ updated_ s) as (Hd & _ & Hn & _).
    rewrite Hd, Hn. split; [lia|]. intros doc'.
    destruct (documents s !! document_) as [doc0|] eqn:Hdoc0.
    2:{ intros Hdoc. exists doc'. split; [done|apply keeps_denormalized_refl]. }
    destruct (unset (web_uri doc0) && is_http uri_) eqn:Hcond.
    2:{ intros Hdoc. exists doc'. split; [done|apply keeps_denormalized_refl]. }
    destruct (decide (d = document_)) as [->|Hne].
    + rewrite lookup_insert_eq. intros [= <-]. exists doc0. split; [done|].
      apply andb_prop in Hcond as [Hunset _]. split; [congruence|done].
    + rewrite lookup_insert_ne by done. intros Hdoc. exists doc'.
      split; [done|apply keeps_denormalized_refl].
  - destruct (upsert_meta_state claimant_ type_ value_ document_
                created_ updated_ s) as (Hd & _ & Hn & _).
    rewrite Hd, Hn. split; [lia|]. intros doc'.
    destruct (documents s !! document_) as [doc0|] eqn:Hdoc0.
    2:{ intros Hdoc. exists doc'. split; [done|apply keeps_denormalized_refl]. }
    destruct (bool_decide (type_ = "title") && unset (title doc0)) eqn:Hcond.
    2:{ intros Hdoc. exists doc'. split; [done|apply keeps_denormalized_refl]. }
    destruct (decide (d = document_)) as [->|Hne].
    + rewrite lookup_insert_eq. intros [= <-]. exists doc0. split; [done|].
      apply andb_prop in Hcond as [_ Hunset]. split; [done|congruence].
    + rewrite lookup_insert_ne by done. intros Hdoc. exists doc'.
      split; [done|apply keeps_denormalized_refl].
  - destruct (merge_state document_list updated_ s) as (Hn & _ & Hdocs).
    rewrite Hn. split; [lia|]. intros doc' Hdoc.
    destruct (Hdocs d doc' Hdoc) as (doc & Hd & Hw & Ht).
    exists doc. split; [done|]. split; congruence.
Qed.

(** X15. [web_uri] and [title], once set to a non-empty value, are never
    overwritten: whatever calls of the four write paths follow, a Document
    whose identifier had been handed out and that is in the store
    afterwards was in the store before, and has the [web_uri] and the
    [title] it had if they were set. *)
Theorem denormalized_fields_never_overwritten s (calls : list store_call)
    (d : nat) (doc' : Document) :
  (d < next_document s)%nat ->
  documents (call_store_all s calls) !! d = Some doc' ->
  ∃ doc, documents s !! d = Some doc ∧
    (unset (web_uri doc) = false -> web_uri doc' = web_uri doc) ∧
    (unset (title doc) = false -> title doc' = title doc).
Proof.
  revert doc'.
  induction calls as [|c calls IH] using rev_ind; intros doc' Hlt Hdoc.
  - exists doc'. split; [done|apply keeps_denormalized_refl].
  - unfold call_store_all in *. rewrite foldl_app in Hdoc. simpl in Hdoc.
    assert (Hnext : (d < next_document (foldl call_store s calls))%nat).
    { clear IH Hdoc. induction calls as [|c' calls IH'] using rev_ind; [done|].
      rewrite foldl_app. simpl.
      destruct (call_store_document (foldl call_store s calls) c' d IH') as [? _].
      lia. }
    destruct (call_store_document _ c d Hnext) as [_ Hstep].
    destruct (Hstep doc' Hdoc) as (doc1 & Hdoc1 & Hkeep1).
    destruct (IH doc1 Hlt Hdoc1) as (doc & Hd & Hkeep).
    exists doc. split; [done|].
    apply (keeps_denormalized_trans doc doc1 doc'); done.
Qed.

(** X16. The write paths never put two DocumentURI rows with the same
    (claimant, uri, type, content_type) into the table: if the keys of
    the table are pairwise different before a call they are so after it.
    For [find_or_create_by_uris] this uses that every row of the table
    is owned by a Document of the store. *)
Theorem uri_keys_stay_unique s (c : store_call) :
  NoDup (map uri_key (document_uris s)) ->
  (is_find_or_create c = true -> uris_owned s) ->
  NoDup (map uri_key (document_uris (call_store s c))).
Proof.
  intros Hnodup Howned. destruct c; simpl.
  - destruct (find_or_create_state target_uri other_uris created_ updated_ s)
      as (_ & [(Hnone & _ & Hu & _)|(_ & _ & Hu & _)]); rewrite Hu; [|done].
    rewrite map_app. simpl. apply NoDup_app. split_and!; [done| |apply NoDup_singleton].
    intros k Hk Hnew. apply list_elem_of_singleton in Hnew as ->.
    change (map uri_key ?l) with (uri_key <$> l) in Hk.
    apply list_elem_of_fmap in Hk as (row & Hkey & Hrow).
    assert (Hin : document row ∈ find_by_uris s (target_uri :: other_uris)).
    { apply elem_of_find_by_uris. split; [by apply Howned|].
      exists row. split_and!; [done..|].
      unfold uri_key in Hkey. simpl in Hkey.
      assert (Huri : uri row = target_uri) by congruence.
      rewrite Huri. by left. }
    rewrite Hnone in Hin. by apply elem_of_nil in Hin.
  - rewrite create_or_update_document_uri_rows.
    destruct (list_find _ (document_uris s)) as [[i docuri]|] eqn:Hfind.
    + apply list_find_Some in Hfind as (Hi & _).
      change (map uri_key ?l) with (uri_key <$> l) in *.
      rewrite list_fmap_insert, list_insert_id; [done|].
      by rewrite list_lookup_fmap, Hi.
    + apply list_find_None in Hfind.
      rewrite map_app. simpl. apply NoDup_app.
      split_and!; [done| |apply NoDup_singleton].
      intros k Hk Hnew. apply list_elem_of_singleton in Hnew as ->.
      change (map uri_key ?l) with (uri_key <$> l) in Hk.
      apply list_elem_of_fmap in Hk as (row & Hkey & Hrow).
      rewrite Forall_forall in Hfind. by apply (Hfind row Hrow).
  - destruct (upsert_meta_state claimant_ type_ value_ document_ created_ updated_ s)
      as (_ & Hu & _). by rewrite Hu.
  - destruct (merge_state document_list updated_ s) as (_ & Hkeys & _).
    by apply (sublist_NoDup _ _ Hnodup).
Qed.

Lemma denormalized_on_first_claim_witness :
  let s' := (create_or_update_document_uri DocumentScenario.example_claimant
               DocumentScenario.example_uri (Some "self-claim") None 1 None None
               DocumentScenario.one_document_uri).2 in
  ∃ doc', documents s' !! 1%nat = Some doc' ∧
          web_uri doc' = Some DocumentScenario.example_uri ∧ title doc' = None.
Proof.
  exact (proj1 (denormalized_on_first_claim DocumentScenario.one_document_uri 1
                  (mkDocument None None None None) eq_refl)
               DocumentScenario.example_claimant DocumentScenario.example_uri
               (Some "self-claim") None None None).
Defined.

Lemma meta_upsert_overwrites_value_only_witness :
  let s' := (create_or_update_document_meta DocumentScenario.main_page "title"
               ("new value", []) 2 (Some 5) (Some 6)
               MoreDocumentScenarios.two_documents).2 in
  length (document_meta s') = 2%nat ∧
  ∃ row', document_meta s' !! 0%nat = Some row' ∧
          value row' = ("new value", []) ∧ meta_updated row' = Some 6 ∧
          meta_created row' = None ∧ meta_document row' = 1%nat.
Proof.
  intros s'.
  destruct (meta_upsert_overwrites_value_only DocumentScenario.main_page "title"
              ("new value", []) 2 (Some 5) (Some 6)
              MoreDocumentScenarios.two_documents 0
              MoreDocumentScenarios.master_title eq_refl)
    as (Hlen & _ & row' & Hrow & Hv & Hu & Hc & Hd & _).
  split; [exact Hlen|]. exists row'. split; [exact Hrow|].
  split; [exact Hv|]. split; [exact Hu|]. split; [exact Hc|exact Hd].
Defined.

Lemma mismatch_is_warned_not_repaired_witness :
  let s' := (create_or_update_document_uri DocumentScenario.mobile_page
               DocumentScenario.main_page (Some "rel-canonical") None 1
               (Some 5) (Some 6) MoreDocumentScenarios.two_documents).2 in
  warnings s' = [DocumentMismatch 2 1] ∧
  map document (document_uris s') = [1; 2]%nat.
Proof.
  intros s'.
  destruct (mismatch_is_warned_not_repaired DocumentScenario.mobile_page
              DocumentScenario.main_page (Some "rel-canonical") None 1
              (Some 5) (Some 6) MoreDocumentScenarios.two_documents 1
              MoreDocumentScenarios.duplicate_uri eq_refl)
    as (Hw & _ & Hd).
  split; [exact Hw|exact Hd].
Defined.

Lemma find_or_create_creates_one_witness :
  let out := find_or_create_by_uris MoreDocumentScenarios.pluto
               [MoreDocumentScenarios.mobile_pluto] None None
               MoreDocumentScenarios.two_documents in
  out.1 = Ok [3%nat] ∧
  length (document_uris out.2) = 3%nat ∧
  documents out.2 !! 3%nat = Some (mkDocument None None None None).
Proof.
  intros out.
  destruct (find_or_create_creates_one MoreDocumentScenarios.pluto
              [MoreDocumentScenarios.mobile_pluto] None None
              MoreDocumentScenarios.two_documents eq_refl eq_refl eq_refl)
    as (Hr & Hd & Hu & _).
  split; [exact Hr|]. split.
  - unfold out. rewrite Hu. reflexivity.
  - unfold out. rewrite Hd. reflexivity.
Defined.

Lemma find_or_create_returns_matches_witness :
  let out := find_or_create_by_uris DocumentScenario.main_page
               [DocumentScenario.mobile_page] None None
               MoreDocumentScenarios.two_documents in
  (∃ found, out.1 = Ok found ∧ (1%nat ∈ found ∧ 2%nat ∈ found) ∧ NoDup found) ∧
  documents out.2 = documents MoreDocumentScenarios.two_documents ∧
  document_uris out.2 = document_uris MoreDocumentScenarios.two_documents.
Proof.
  intros out.
  assert (Hsome : find_by_uris MoreDocumentScenarios.two_documents
                    [DocumentScenario.main_page; DocumentScenario.mobile_page] ≠ []).
  { vm_compute. discriminate. }
  destruct (find_or_create_returns_matches DocumentScenario.main_page
              [DocumentScenario.mobile_page] None None
              MoreDocumentScenarios.two_documents Hsome eq_refl)
    as (Hr & Hd & Hu & _ & Hnodup & Hin).
  split; [|split; [exact Hd|exact Hu]].
  eexists. split; [exact Hr|]. split; [|exact Hnodup].
  split; apply Hin.
  - split; [by eexists|]. eexists. split; [by left|]. split; [reflexivity|by left].
  - split; [by eexists|]. eexists. split; [right; by left|].
    split; [reflexivity|by left].
Defined.

Lemma denormalized_fields_never_overwritten_witness :
  ∃ doc, documents MoreDocumentScenarios.after_first_claim !! 1%nat = Some doc ∧
    (unset (web_uri doc) = false ->
     Some DocumentScenario.example_uri = web_uri doc) ∧
    (unset (title doc) = false -> None = title doc).
Proof.
  apply (denormalized_fields_never_overwritten
           MoreDocumentScenarios.after_first_claim
           [MoreDocumentScenarios.later_claim] 1
           (mkDocument (Some DocumentScenario.example_uri) None None None)).
  - apply Nat.lt_succ_diag_r.
  - reflexivity.
Defined.

Lemma uri_keys_stay_unique_witness :
  NoDup (map uri_key
           (document_uris
              (call_store MoreDocumentScenarios.two_documents
                 (CallFindOrCreate MoreDocumentScenarios.pluto
                    [MoreDocumentScenarios.mobile_pluto] None None)))).
Proof.
  apply uri_keys_stay_unique.
  - apply (bool_decide_unpack _). vm_compute. exact I.
  - intros _. unfold uris_owned. apply Forall_forall.
    repeat constructor; by eexists.
Defined.

End DocumentStoreExtra.
